(** * The WhatsApp bridge message scheduler

    A shallow embedding of the Go package [scheduler] of the WhatsApp bridge:
    the persistence layer ([scheduler_db.go]), the scheduling engine
    (the periodic evaluation pass, the worker and [ScheduleMessage]) and
    the HTTP handlers of the control surface.

    Conventions of the embedding.
    - A Go [string] is a [string] of bytes; [len] is [String.length] read
      as a [Z]; a slice expression [s[lo:hi]] is [slice], which is [None]
      where Go panics.
    - A [time.Time] is a [Time]: an instant and the offset of its location
      from UTC.  [Before] compares instants.  The columns of a row hold
      the texts the driver writes for the [time.Time] values bound, each in
      the offset of its own value, and SQLite compares and sorts these
      texts byte by byte: the comparisons and the [ORDER BY] of the queries
      are made on [time_text], not on instants.
    - A Go [error] is its message, the text [err.Error()] returns.
    - The table [scheduled_messages] is the list of its rows in rowid
      order.  The primary key is the invariant [wf_store].  [ORDER BY]
      returns the rows sorted by the text of the column; in which order it
      returns rows of equal text is left to the engine ([Sqlite]).
    - A statement that writes for the engine ([Exec] in
      [UpdateMessageStatus] and [InsertScheduledMessage], called from the
      pass and from [ScheduleMessage]) can fail and then writes nothing;
      whether it does is asked of the world ([scheduler_Exec]).  The
      queries succeed, and the handlers of the control surface are embedded
      for statements that succeed: their branches for a failed statement
      answer 500 and write nothing.
    - An operation reads the table and writes it later; the loops take the
      list read and the table written as two arguments, and the item
      handler takes the table it reads and the table it writes, so a write
      of another operation between the two can be stated.
    - Whatever lies outside the package (clock, uuid generator, the
      bridge's own message table, the transport) is a state [World] with
      one operation per call the package makes. *)

From Stdlib Require Import ZArith List String Ascii Bool Lia.
From Stdlib Require Import Permutation Sorted.
Import ListNotations.

Local Open Scope string_scope.
Local Open Scope Z_scope.

(** ** Go strings *)

Module GoString.

Definition len (s : string) : Z := Z.of_nat (String.length s).

(** [s[lo:hi]]; [None] is the run-time panic on bounds out of range. *)
Definition slice (s : string) (lo hi : Z) : option string :=
  if (0 <=? lo) && (lo <=? hi) && (hi <=? len s)
  then Some (substring (Z.to_nat lo) (Z.to_nat (hi - lo)) s)
  else None.

(** Short-circuit [&&] and [||] over computations that may panic. *)
Definition and_then (a b : option bool) : option bool :=
  match a with
  | Some true => b
  | Some false => Some false
  | None => None
  end.

Definition or_else (a b : option bool) : option bool :=
  match a with
  | Some true => Some true
  | Some false => b
  | None => None
  end.

Definition slice_eq (s : string) (lo hi : Z) (substr : string) : option bool :=
  option_map (fun t => String.eqb t substr) (slice s lo hi).

(** The body of the [for] loop of [containsMiddle], [remaining] iterations
    from index [i] on. *)
Fixpoint containsMiddle_from (remaining : nat) (s substr : string) (i : Z)
  : option bool :=
  match remaining with
  | O => Some false
  | S r =>
      match slice_eq s i (i + len substr) substr with
      | None => None
      | Some true => Some true
      | Some false => containsMiddle_from r s substr (i + 1)
      end
  end.

(** [for i := 0; i <= len(s)-len(substr); i++]: the loop runs for
    [len(s)-len(substr)+1] indices, none when that number is not positive. *)
Definition containsMiddle (s substr : string) : option bool :=
  containsMiddle_from (Z.to_nat (len s - len substr + 1)) s substr 0.

Definition contains (s substr : string) : option bool :=
  and_then (Some (0 <? len s))
 (and_then (Some (0 <? len substr))
 (and_then (Some (negb (String.eqb s "")))
 (and_then (Some (negb (String.eqb substr "")))
   (or_else (Some (String.eqb s substr))
     (and_then (Some (len substr <? len s))
        (or_else (slice_eq s 0 (len substr) substr)
        (or_else (slice_eq s (len s - len substr) (len s) substr)
                 (containsMiddle s substr)))))))).

(** The standard substring predicate. *)
Definition Substring (substr s : string) : Prop :=
  exists pre post, s = pre ++ substr ++ post.

End GoString.

Import GoString.

(** Recipient normalisation, the first statement of [ScheduleMessage] and
    of [hasRecipientResponded].  [contains] never panics
    ([contains_total]), so the last branch is never taken. *)
Definition normalizeRecipient (recipient : string) : string :=
  match contains recipient "@" with
  | Some false => recipient ++ "@s.whatsapp.net"
  | Some true => recipient
  | None => recipient
  end.

(** ** Times *)

(** A [time.Time]: the instant, and the offset from UTC of the location the
    value carries. *)
Record Time : Type := mkTime {
  instant : Z;
  offset : Z
}.

(** An instant, in UTC. *)
Definition utc (i : Z) : Time := mkTime i 0.

(** [t.Before(u)]. *)
Definition Before (t u : Time) : bool := instant t <? instant u.

(** ** The data model ([scheduler_db.go]) *)

(** A Go function result [(T, error)]. *)
Inductive result (A : Type) : Type :=
| Ok (a : A)
| Err (e : string).
Arguments Ok {A} a.
Arguments Err {A} e.

(** [time.Time{}], the zero instant. *)
Definition zeroTime : Time := utc 0.

(** The struct [ScheduledMessage]; a row of [scheduled_messages] has the
    same ten columns.  The nullable columns [sent_at] and [error_message]
    are the pointer fields.  A time column holds the text of the value
    bound ([time_text]); scanning the row gives the value back. *)
Record ScheduledMessage : Type := mkScheduledMessage {
  ID : string;
  Recipient : string;
  Message : string;
  ScheduledTime : Time;
  CreatedAt : Time;
  LastMessageAt : Time;
  CheckForResponse : bool;
  Status : string;
  SentAt : option Time;
  ErrorMessage : option string
}.

(** The table, rows in rowid order. *)
Definition Store : Type := list ScheduledMessage.

(** [id TEXT PRIMARY KEY]. *)
Definition wf_store (s : Store) : Prop := NoDup (map ID s).

(** ** The database: driver and engine *)

(** The order of the column [scheduled_time] of two rows: the order of
    the texts stored, ascending or descending. *)
Definition scheduled_time_asc (text : Time -> string)
  (a b : ScheduledMessage) : bool :=
  String.leb (text (ScheduledTime a)) (text (ScheduledTime b)).

Definition scheduled_time_desc (text : Time -> string)
  (a b : ScheduledMessage) : bool :=
  String.leb (text (ScheduledTime b)) (text (ScheduledTime a)).

(** What the package relies on from go-sqlite3 and SQLite: the text the
    driver binds for a [time.Time] (the value printed in its own offset),
    and [ORDER BY scheduled_time], which returns the rows it is given,
    each once, sorted by that text; the order of rows with the same text
    is the engine's. *)
Class Sqlite : Type := {
  time_text : Time -> string;
  order_asc : list ScheduledMessage -> list ScheduledMessage;
  order_desc : list ScheduledMessage -> list ScheduledMessage;
  order_asc_perm : forall l, Permutation (order_asc l) l;
  order_desc_perm : forall l, Permutation (order_desc l) l;
  order_asc_sorted :
    forall l,
      StronglySorted (fun a b => scheduled_time_asc time_text a b = true)
        (order_asc l);
  order_desc_sorted :
    forall l,
      StronglySorted (fun a b => scheduled_time_desc time_text a b = true)
        (order_desc l)
}.

(** ** The persistence layer *)

(** [INSERT INTO scheduled_messages (id, ..., status) VALUES (...)]: eight
    columns are given, [sent_at] and [error_message] start as NULL; the
    statement fails on a key that is already there. *)
Definition InsertScheduledMessage (msg : ScheduledMessage) (s : Store)
  : result Store :=
  if existsb (fun row => String.eqb (ID row) (ID msg)) s
  then Err "UNIQUE constraint failed: scheduled_messages.id"
  else Ok (s ++ [ {| ID := ID msg;
                     Recipient := Recipient msg;
                     Message := Message msg;
                     ScheduledTime := ScheduledTime msg;
                     CreatedAt := CreatedAt msg;
                     LastMessageAt := LastMessageAt msg;
                     CheckForResponse := CheckForResponse msg;
                     Status := Status msg;
                     SentAt := None;
                     ErrorMessage := None |} ])%list.

(** A stable insertion sort: rows that the order does not separate stay
    in the order of the list. *)
Section OrderBy.
Context {A : Type} (le : A -> A -> bool).

Fixpoint insert_by (x : A) (l : list A) : list A :=
  match l with
  | [] => [x]
  | y :: l' => if le x y then x :: y :: l' else y :: insert_by x l'
  end.

Definition order_by (l : list A) : list A := fold_right insert_by [] l.
End OrderBy.

Section Queries.
Context `{Sqlite}.

(** [WHERE status = 'pending' AND scheduled_time <= ?]: the second test
    compares the text of the column with the text bound for [now]. *)
Definition is_due (now : Time) (row : ScheduledMessage) : bool :=
  String.eqb (Status row) "pending"
  && String.leb (time_text (ScheduledTime row)) (time_text now).

Definition GetPendingMessages (now : Time) (s : Store)
  : list ScheduledMessage :=
  order_asc (filter (is_due now) s).

(** [WHERE 1=1], with [AND status = ?] and [AND recipient = ?] added for
    the arguments that are not empty. *)
Definition matches_filters (status recipient : string) (row : ScheduledMessage)
  : bool :=
  (String.eqb status "" || String.eqb (Status row) status)
  && (String.eqb recipient "" || String.eqb (Recipient row) recipient).

Definition GetAllScheduledMessages (status recipient : string) (s : Store)
  : list ScheduledMessage :=
  order_desc (filter (matches_filters status recipient) s).

(** [WHERE recipient = ? AND status = 'pending' AND scheduled_time > ?
    AND check_for_response = 1], the time test on the texts again. *)
Definition is_future_for (recipient : string) (now : Time)
  (row : ScheduledMessage) : bool :=
  String.eqb (Recipient row) recipient
  && String.eqb (Status row) "pending"
  && String.ltb (time_text now) (time_text (ScheduledTime row))
  && CheckForResponse row.

Definition GetFutureMessagesForRecipient (recipient : string) (now : Time)
  (s : Store) : list ScheduledMessage :=
  order_asc (filter (is_future_for recipient now) s).

End Queries.

Definition GetScheduledMessage (id : string) (s : Store)
  : result ScheduledMessage :=
  match find (fun row => String.eqb (ID row) id) s with
  | Some msg => Ok msg
  | None => Err "scheduled message not found"
  end.

(** [SET status = ?, sent_at = ?, error_message = ?] on a row. *)
Definition set_status (status : string) (sentAt : option Time)
  (errorMsg : option string) (row : ScheduledMessage) : ScheduledMessage :=
  {| ID := ID row;
     Recipient := Recipient row;
     Message := Message row;
     ScheduledTime := ScheduledTime row;
     CreatedAt := CreatedAt row;
     LastMessageAt := LastMessageAt row;
     CheckForResponse := CheckForResponse row;
     Status := status;
     SentAt := sentAt;
     ErrorMessage := errorMsg |}.

(** [UPDATE scheduled_messages SET ... WHERE id = ?]. *)
Definition UpdateMessageStatus (id status : string) (sentAt : option Time)
  (errorMsg : option string) (s : Store) : Store :=
  map (fun row => if String.eqb (ID row) id
                  then set_status status sentAt errorMsg row
                  else row) s.

(** [DELETE FROM scheduled_messages WHERE id = ?]. *)
Definition DeleteScheduledMessage (id : string) (s : Store) : Store :=
  filter (fun row => negb (String.eqb (ID row) id)) s.

(** ** The collaborators of the package *)

(** The outcome of [QueryRow(...).Scan(&v)]: [sql.ErrNoRows], another
    error, or the value scanned. *)
Inductive row_result : Type :=
| NoRows
| RowErr (e : string)
| Row (v : string).

(** What the package calls and does not define: [time.Now], [uuid.New],
    the two queries on the bridge's [messages] table through [whatsappDB],
    the RFC 3339 formatter and parser of package [time], the function
    held in the field [messageSender] (the [client] argument is the field
    of the same scheduler and is left out), and whether the next [Exec] on
    the scheduler database fails, with which error. *)
Class Collaborators (World : Type) : Type := {
  time_Now : World -> Time * World;
  uuid_New : World -> string * World;
  time_Format_RFC3339 : Time -> string;
  time_Parse_RFC3339 : string -> result Time;
  (** the number of rows of [messages] with [sender = ?] and
      [is_from_me = 0] and [timestamp > ?], or the error of the query *)
  messages_countAfter : string -> string -> World -> result Z * World;
  (** the greatest [timestamp] of the rows of [messages] with
      [sender = ?] and [is_from_me = 0] *)
  messages_lastTimestamp : string -> World -> row_result * World;
  messageSender : string -> string -> string -> World -> (bool * string) * World;
  (** [None] when the statement is executed, the error when it fails *)
  scheduler_Exec : World -> option string * World
}.

(** ** The scheduling engine *)

(** One invocation of the sender, kept for the statements about delivery:
    the item it was made for and the world it was made in. *)
Record SendCall (World : Type) : Type := mkSendCall {
  call_msg : ScheduledMessage;
  call_world : World
}.
Arguments mkSendCall {World} call_msg call_world.
Arguments call_msg {World} s.
Arguments call_world {World} s.

Definition RecipientResponded : string :=
  "Recipient responded before scheduled time".

Section Engine.
Context {World : Type} `{Collaborators World} `{Sqlite}.

(** [ms.schedulerDB.UpdateMessageStatus(...)] as the engine calls it: the
    [Exec] fails, the error is returned and nothing is written, or the
    update is made. *)
Definition execUpdateMessageStatus (id status : string)
  (sentAt : option Time) (errorMsg : option string) (w : World) (s : Store)
  : option string * World * Store :=
  let '(failure, w1) := scheduler_Exec w in
  match failure with
  | Some e => (Some e, w1, s)
  | None => (None, w1, UpdateMessageStatus id status sentAt errorMsg s)
  end.

(** [ms.schedulerDB.InsertScheduledMessage(msg)], in the same way; the
    statement that is executed still fails on a key that is there. *)
Definition execInsertScheduledMessage (msg : ScheduledMessage) (w : World)
  (s : Store) : option string * World * Store :=
  let '(failure, w1) := scheduler_Exec w in
  match failure with
  | Some e => (Some e, w1, s)
  | None =>
      match InsertScheduledMessage msg s with
      | Err e => (Some e, w1, s)
      | Ok s' => (None, w1, s')
      end
  end.

Definition hasRecipientResponded (recipient : string) (afterTime : Time)
  (w : World) : result bool * World :=
  let recipientJID := normalizeRecipient recipient in
  let '(r, w1) :=
    messages_countAfter recipientJID (time_Format_RFC3339 afterTime) w in
  match r with
  | Err e => (Err e, w1)
  | Ok count => (Ok (0 <? count), w1)
  end.

Definition getLastMessageTime (recipient : string) (w : World)
  : result Time * World :=
  let '(r, w1) := messages_lastTimestamp recipient w in
  match r with
  | NoRows => (Ok zeroTime, w1)
  | RowErr e => (Err e, w1)
  | Row timestamp => (time_Parse_RFC3339 timestamp, w1)
  end.

(** The loop of [checkAndPauseFutureMessages] over [allPending]; the
    error of a failed update is logged and the loop goes on. *)
Fixpoint pauseResponded (allPending : list ScheduledMessage)
  (w : World) (s : Store) : World * Store :=
  match allPending with
  | [] => (w, s)
  | msg :: rest =>
      if negb (CheckForResponse msg) then pauseResponded rest w s
      else
        let '(r, w1) :=
          hasRecipientResponded (Recipient msg) (CreatedAt msg) w in
        match r with
        | Err _ => pauseResponded rest w1 s
        | Ok hasNewMessage =>
            if hasNewMessage
            then
              let '(_, w2, s2) :=
                execUpdateMessageStatus (ID msg) "paused" None
                  (Some RecipientResponded) w1 s in
              pauseResponded rest w2 s2
            else pauseResponded rest w1 s
        end
  end.

Definition checkAndPauseFutureMessages (now : Time) (w : World) (s : Store)
  : World * Store :=
  pauseResponded (GetAllScheduledMessages "pending" "" s) w s.

(** The result is the error returned ([None] for [nil]), the world and
    the table afterwards, and the calls of the sender. *)
Definition processSingleMessage (msg : ScheduledMessage) (w : World)
  (s : Store) : option string * World * Store * list (SendCall World) :=
  let send (w0 : World) :=
    let '((success, errMsg), w1) :=
      messageSender (Recipient msg) (Message msg) "" w0 in
    let calls := [mkSendCall msg w0] in
    if negb success
    then
      let '(_, w2, s2) :=
        execUpdateMessageStatus (ID msg) "failed" None (Some errMsg) w1 s in
      (Some ("failed to send message: " ++ errMsg), w2, s2, calls)
    else
      let '(now, w2) := time_Now w1 in
      let '(err, w3, s3) :=
        execUpdateMessageStatus (ID msg) "sent" (Some now) None w2 s in
      (err, w3, s3, calls)
  in
  if CheckForResponse msg then
    let '(r, w0) :=
      hasRecipientResponded (Recipient msg) (CreatedAt msg) w in
    match r with
    | Err e =>
        let errMsg := "Error checking recipient response: " ++ e in
        let '(_, w1, s1) :=
          execUpdateMessageStatus (ID msg) "failed" None (Some errMsg) w0 s in
        (Some e, w1, s1, [])
    | Ok hasResponded =>
        if hasResponded
        then
          let '(err, w1, s1) :=
            execUpdateMessageStatus (ID msg) "paused" None
              (Some RecipientResponded) w0 s in
          (err, w1, s1, [])
        else send w0
    end
  else send w.

(** The loop of [processScheduledMessages] over [messages]; an error of
    [processSingleMessage] is logged and the loop goes on. *)
Fixpoint deliver (messages : list ScheduledMessage) (w : World) (s : Store)
  : World * Store * list (SendCall World) :=
  match messages with
  | [] => (w, s, [])
  | msg :: rest =>
      let '(_, w1, s1, calls) := processSingleMessage msg w s in
      let '(w2, s2, calls') := deliver rest w1 s1 in
      (w2, s2, (calls ++ calls')%list)
  end.

Definition processScheduledMessages (w : World) (s : Store)
  : World * Store * list (SendCall World) :=
  let '(now, w0) := time_Now w in
  let '(w1, s1) := checkAndPauseFutureMessages now w0 s in
  deliver (GetPendingMessages now s1) w1 s1.

Definition ScheduleMessage (recipient message : string) (scheduledTime : Time)
  (checkForResponse : bool) (w : World) (s : Store)
  : result ScheduledMessage * World * Store :=
  let '(now, w1) := time_Now w in
  if Before scheduledTime now
  then (Err "scheduled time must be in the future", w1, s)
  else
    let recipientJID := normalizeRecipient recipient in
    let '(r, w2) := getLastMessageTime recipientJID w1 in
    let lastMessageAt :=
      match r with
      | Ok t => t
      | Err _ => zeroTime
      end in
    let '(id, w3) := uuid_New w2 in
    let '(createdAt, w4) := time_Now w3 in
    let scheduledMsg :=
      {| ID := id;
         Recipient := recipientJID;
         Message := message;
         ScheduledTime := scheduledTime;
         CreatedAt := createdAt;
         LastMessageAt := lastMessageAt;
         CheckForResponse := checkForResponse;
         Status := "pending";
         SentAt := None;
         ErrorMessage := None |} in
    let '(err, w5, s') := execInsertScheduledMessage scheduledMsg w4 s in
    match err with
    | Some e => (Err ("failed to insert scheduled message: " ++ e), w5, s')
    | None => (Ok scheduledMsg, w5, s')
    end.

End Engine.

(** ** The control surface: the handler of [/api/scheduled/{id}] *)

(** What the handler reads of a request: the method, the rest of the path
    after [/api/scheduled/], and the field [action] of the decoded JSON
    body ([None] when decoding fails). *)
Record Request : Type := mkRequest {
  req_Method : string;
  req_ID : string;
  req_Action : option string
}.

(** What the handler writes: [http.Error(w, text, code)], or one of its
    two JSON bodies with [success: true]. *)
Inductive Response : Type :=
| HttpError (text : string) (code : Z)
| JsonScheduledMessage (msg : ScheduledMessage)
| JsonSuccess (message : string).

Definition StatusBadRequest : Z := 400.
Definition StatusNotFound : Z := 404.
Definition StatusMethodNotAllowed : Z := 405.

(** The [switch req.Action] of the PATCH case: the new status and reason,
    or the text of the error written. *)
Definition patchTransition (action : string) (msg : ScheduledMessage)
  : result (string * option string) :=
  if String.eqb action "pause" then
    if negb (String.eqb (Status msg) "pending")
    then Err "Can only pause pending messages"
    else Ok ("paused", Some "Paused by user")
  else if String.eqb action "resume" then
    if negb (String.eqb (Status msg) "paused")
    then Err "Can only resume paused messages"
    else Ok ("pending", None)
  else Err "Invalid action. Use 'pause' or 'resume'".

(** The handler looks the item up, tests its status and then writes:
    [read] is the table at the lookup, [written] the table at the update,
    the same table unless another operation wrote in between. *)
Definition handleScheduledItemOn (r : Request) (read written : Store)
  : Response * Store :=
  let id := req_ID r in
  if String.eqb id ""
  then (HttpError "Message ID is required" StatusBadRequest, written)
  else if String.eqb (req_Method r) "GET" then
    match GetScheduledMessage id read with
    | Err _ => (HttpError "Message not found" StatusNotFound, written)
    | Ok msg => (JsonScheduledMessage msg, written)
    end
  else if String.eqb (req_Method r) "DELETE" then
    match GetScheduledMessage id read with
    | Err _ => (HttpError "Message not found" StatusNotFound, written)
    | Ok msg =>
        if negb (String.eqb (Status msg) "pending")
           && negb (String.eqb (Status msg) "paused")
        then (HttpError "Can only cancel pending or paused messages"
                StatusBadRequest, written)
        else (JsonSuccess "Message cancelled successfully",
              UpdateMessageStatus id "cancelled" None
                (Some "Cancelled by user") written)
    end
  else if String.eqb (req_Method r) "PATCH" then
    match req_Action r with
    | None => (HttpError "Invalid request body" StatusBadRequest, written)
    | Some action =>
        match GetScheduledMessage id read with
        | Err _ => (HttpError "Message not found" StatusNotFound, written)
        | Ok msg =>
            match patchTransition action msg with
            | Err text => (HttpError text StatusBadRequest, written)
            | Ok (newStatus, reason) =>
                (JsonSuccess ("Message " ++ action ++ "d successfully"),
                 UpdateMessageStatus id newStatus None reason written)
            end
        end
    end
  else (HttpError "Method not allowed" StatusMethodNotAllowed, written).

(** The handler on a table that nothing else writes meanwhile. *)
Definition handleScheduledItem (r : Request) (s : Store) : Response * Store :=
  handleScheduledItemOn r s s.

(** The three requests of the control surface that change a status. *)
Definition cancel (id : string) : Request := mkRequest "DELETE" id None.
Definition resume (id : string) : Request := mkRequest "PATCH" id (Some "resume").


(** ** The background worker *)

(** What the goroutine of [Start] receives, in the order it receives it: a
    value on [ticker.C] or a value on [stopChan]. *)
Inductive signal : Type :=
| Tick
| StopSignal.

Section Worker.
Context {World : Type} `{Collaborators World} `{Sqlite}.

(** The [for { select { ... } }] of [Start]: a pass at each tick, return at
    the stop signal. *)
Fixpoint worker (signals : list signal) (w : World) (s : Store)
  : World * Store * list (SendCall World) :=
  match signals with
  | [] => (w, s, [])
  | Tick :: rest =>
      let '(w1, s1, calls) := processScheduledMessages w s in
      let '(w2, s2, calls') := worker rest w1 s1 in
      (w2, s2, (calls ++ calls')%list)
  | StopSignal :: _ => (w, s, [])
  end.

End Worker.

(** ** The control surface: the handlers of [/api/schedule] and
    [/api/scheduled] *)

(** The struct [ScheduleMessageRequest], the decoded JSON body. *)
Record ScheduleMessageRequest : Type := mkScheduleMessageRequest {
  req_Recipient : string;
  req_Message : string;
  req_ScheduledTime : string;
  req_CheckForResponse : bool
}.

(** What these two handlers write: [http.Error(w, text, code)], the body
    with [scheduled_message], or the body with [messages]. *)
Inductive CollectionResponse : Type :=
| CollectionError (text : string) (code : Z)
| JsonScheduled (message : string) (scheduled_message : ScheduledMessage)
| JsonMessages (messages : list ScheduledMessage).

Definition StatusInternalServerError : Z := 500.

Section ScheduleHandler.
Context {World : Type} `{Collaborators World} `{Sqlite}.

(** [POST /api/schedule]; [body] is [None] when the JSON decoder fails. *)
Definition handleSchedule (method : string)
  (body : option ScheduleMessageRequest) (w : World) (s : Store)
  : CollectionResponse * World * Store :=
  if negb (String.eqb method "POST")
  then (CollectionError "Method not allowed" StatusMethodNotAllowed, w, s)
  else
    match body with
    | None => (CollectionError "Invalid request body" StatusBadRequest, w, s)
    | Some req =>
        if String.eqb (req_Recipient req) ""
        then (CollectionError "Recipient is required" StatusBadRequest, w, s)
        else if String.eqb (req_Message req) ""
        then (CollectionError "Message is required" StatusBadRequest, w, s)
        else if String.eqb (req_ScheduledTime req) ""
        then (CollectionError "Scheduled time is required" StatusBadRequest,
              w, s)
        else
          match time_Parse_RFC3339 (req_ScheduledTime req) with
          | Err _ =>
              (CollectionError
                 "Invalid scheduled_time format. Use ISO-8601 (e.g., 2025-10-06T15:30:00Z)"
                 StatusBadRequest, w, s)
          | Ok scheduledTime =>
              let '(r, w1, s1) :=
                ScheduleMessage (req_Recipient req) (req_Message req)
                  scheduledTime (req_CheckForResponse req) w s in
              match r with
              | Err e => (CollectionError e StatusInternalServerError, w1, s1)
              | Ok scheduledMsg =>
                  (JsonScheduled "Message scheduled successfully" scheduledMsg,
                   w1, s1)
              end
          end
    end.

End ScheduleHandler.

Section ListHandler.
Context `{Sqlite}.

(** [GET /api/scheduled]; [status] and [recipient] are the query
    parameters, empty when absent. *)
Definition handleScheduledList (method status recipient : string) (s : Store)
  : CollectionResponse :=
  if negb (String.eqb method "GET")
  then CollectionError "Method not allowed" StatusMethodNotAllowed
  else JsonMessages (GetAllScheduledMessages status recipient s).

End ListHandler.

(** ** The item state machine *)

(** The edges: [pending] to [sent], [paused], [cancelled] or [failed];
    [paused] to [pending] or [cancelled]; nothing out of the others. *)
Definition edge (from to : string) : bool :=
  (String.eqb from "pending"
   && (String.eqb to "sent" || String.eqb to "paused"
       || String.eqb to "cancelled" || String.eqb to "failed"))
  || (String.eqb from "paused"
      && (String.eqb to "pending" || String.eqb to "cancelled")).

(** Every item of [s] is still in [s'], its status the same or one edge
    away. *)
Definition follows_edges (s s' : Store) : Prop :=
  forall id msg,
    GetScheduledMessage id s = Ok msg ->
    exists msg',
      GetScheduledMessage id s' = Ok msg'
      /\ (Status msg' = Status msg \/ edge (Status msg) (Status msg') = true).

(** The pairing of sent time and reason with the status. *)
Definition consistent (row : ScheduledMessage) : Prop :=
  (Status row = "sent" -> SentAt row <> None /\ ErrorMessage row = None)
  /\ (Status row = "failed" \/ Status row = "paused"
       \/ Status row = "cancelled" ->
      ErrorMessage row <> None /\ SentAt row = None).

Definition store_consistent (s : Store) : Prop := Forall consistent s.

(** ** What a pass does to an item *)

(** The three updates the evaluation pass writes. *)
Inductive pass_update : string -> option Time -> option string -> Prop :=
| update_failed (e : string) : pass_update "failed" None (Some e)
| update_paused : pass_update "paused" None (Some RecipientResponded)
| update_sent (t : Time) : pass_update "sent" (Some t) None.

(** Two rows are the same item: they agree on the seven columns that
    [UpdateMessageStatus] does not write. *)
Definition same_item (a b : ScheduledMessage) : Prop :=
  ID b = ID a
  /\ Recipient b = Recipient a
  /\ Message b = Message a
  /\ ScheduledTime b = ScheduledTime a
  /\ CreatedAt b = CreatedAt a
  /\ LastMessageAt b = LastMessageAt a
  /\ CheckForResponse b = CheckForResponse a.

Section PassProperties.
Context {World : Type}.

(** No call of the sender in [calls] was made for the item [id]. *)
Definition no_call_for (id : string) (calls : list (SendCall World)) : Prop :=
  Forall (fun c => ID (call_msg c) <> id) calls.

(** The calls of the sender made for the item [id], in order. *)
Definition calls_for (id : string) (calls : list (SendCall World))
  : list (SendCall World) :=
  filter (fun c => String.eqb (ID (call_msg c)) id) calls.

(** The identifiers of the items the sender was called for, in order. *)
Definition called_ids (calls : list (SendCall World)) : list string :=
  map (fun c => ID (call_msg c)) calls.

End PassProperties.

Section ScheduleProperties.
Context {World : Type} `{Collaborators World}.

(** The world in which [ScheduleMessage] executes its insert, and the
    identifier it inserts under, when the time is accepted. *)
Definition insert_world (recipient : string) (w : World) : World :=
  snd (time_Now
         (snd (uuid_New
                 (snd (getLastMessageTime (normalizeRecipient recipient)
                         (snd (time_Now w))))))).

Definition insert_id (recipient : string) (w : World) : string :=
  fst (uuid_New
         (snd (getLastMessageTime (normalizeRecipient recipient)
                 (snd (time_Now w))))).

(** The validation of the handler of [/api/schedule]: the body decodes
    into [req], its recipient, message and time are not empty, and the
    time parses into [t]. *)
Definition passes_validation (body : option ScheduleMessageRequest)
  (req : ScheduleMessageRequest) (t : Time) : Prop :=
  body = Some req
  /\ req_Recipient req <> ""
  /\ req_Message req <> ""
  /\ req_ScheduledTime req <> ""
  /\ time_Parse_RFC3339 (req_ScheduledTime req) = Ok t.

End ScheduleProperties.

(** ** The order of texts, and the insertion sort *)

Section StringOrder.

Lemma ascii_compare_lt_trans (a b c : ascii) :
  Ascii.compare a b = Lt -> Ascii.compare b c = Lt -> Ascii.compare a c = Lt.
Proof.
  unfold Ascii.compare. rewrite !N.compare_lt_iff. apply N.lt_trans.
Qed.

Lemma string_compare_lt_trans (a b c : string) :
  String.compare a b = Lt -> String.compare b c = Lt -> String.compare a c = Lt.
Proof.
  revert b c. induction a as [|x a IH]; intros [|y b] [|z c]; simpl;
    try discriminate; try reflexivity.
  destruct (Ascii.compare x y) eqn:Exy; try discriminate;
    destruct (Ascii.compare y z) eqn:Eyz; try discriminate; intros Hab Hbc.
  - apply Ascii.compare_eq_iff in Exy, Eyz. subst.
    assert (E : Ascii.compare z z = Eq).
    { destruct (Ascii.compare z z) eqn:E; [reflexivity | |];
        pose proof (Ascii.compare_antisym z z) as Ha; rewrite E in Ha;
        discriminate. }
    rewrite E. eauto.
  - apply Ascii.compare_eq_iff in Exy. subst. now rewrite Eyz.
  - apply Ascii.compare_eq_iff in Eyz. subst. now rewrite Exy.
  - now rewrite (ascii_compare_lt_trans _ _ _ Exy Eyz).
Qed.

Lemma string_leb_cases (a b : string) :
  String.leb a b = true <-> String.compare a b = Lt \/ a = b.
Proof.
  unfold String.leb. destruct (String.compare a b) eqn:E.
  - apply String.compare_eq_iff in E. tauto.
  - tauto.
  - split; [discriminate|]. intros [Hlt | ->]; [discriminate|].
    pose proof (String.compare_antisym b b) as Ha. rewrite E in Ha.
    discriminate.
Qed.

Lemma string_leb_trans (a b c : string) :
  String.leb a b = true -> String.leb b c = true -> String.leb a c = true.
Proof.
  rewrite !string_leb_cases. intros [Hab | ->] [Hbc | ->]; auto.
  left. eapply string_compare_lt_trans; eassumption.
Qed.

Lemma string_ltb_not_leb (a b : string) :
  String.ltb a b = true <-> String.leb b a = false.
Proof.
  unfold String.ltb, String.leb. rewrite (String.compare_antisym b a).
  destruct (String.compare a b); simpl; split; congruence.
Qed.

End StringOrder.

Section OrderByFacts.
Context {A : Type} (le : A -> A -> bool).

Lemma insert_by_perm (x : A) (l : list A) :
  Permutation (insert_by le x l) (x :: l).
Proof.
  induction l as [|y l IH]; simpl; [reflexivity|].
  destruct (le x y); [reflexivity|].
  rewrite IH. apply perm_swap.
Qed.

Lemma order_by_perm (l : list A) : Permutation (order_by le l) l.
Proof.
  induction l as [|x l IH]; simpl; [reflexivity|].
  rewrite insert_by_perm. now constructor.
Qed.

(** A class of rows that the order does not separate keeps the order of
    the list. *)
Hypothesis le_total : forall a b, le a b = true \/ le b a = true.
Hypothesis le_trans :
  forall a b c, le a b = true -> le b c = true -> le a c = true.

Lemma insert_by_sorted (x : A) (l : list A) :
  StronglySorted (fun a b => le a b = true) l ->
  StronglySorted (fun a b => le a b = true) (insert_by le x l).
Proof.
  induction l as [|y l IH]; intros Hs; simpl.
  - repeat constructor.
  - inversion Hs as [|? ? Hs' Hall]; subst.
    destruct (le x y) eqn:E.
    + constructor; [assumption|]. constructor; [assumption|].
      eapply Forall_impl; [|exact Hall]. intros z Hz. eapply le_trans; eauto.
    + constructor; [now apply IH|].
      apply (Permutation_Forall (x := x :: l)).
      * symmetry. apply insert_by_perm.
      * constructor; [|assumption].
        destruct (le_total x y) as [H|H]; [congruence | assumption].
Qed.

Lemma order_by_sorted (l : list A) :
  StronglySorted (fun a b => le a b = true) (order_by le l).
Proof.
  induction l as [|x l IH]; simpl; [constructor|].
  now apply insert_by_sorted.
Qed.

End OrderByFacts.

Lemma StronglySorted_app {A : Type} (R : A -> A -> Prop) (l1 l2 : list A) :
  StronglySorted R l1 -> StronglySorted R l2 ->
  (forall a b, In a l1 -> In b l2 -> R a b) ->
  StronglySorted R (l1 ++ l2).
Proof.
  intros H1 H2 Hcross. induction H1 as [|a l Hs IH Hall]; simpl;
    [assumption|].
  constructor.
  - apply IH. intros x y Hx Hy. apply Hcross; [now right | assumption].
  - apply Forall_app. split; [assumption|].
    apply Forall_forall. intros y Hy. apply Hcross; [now left | assumption].
Qed.

Lemma StronglySorted_rev {A : Type} (R : A -> A -> Prop) (l : list A) :
  StronglySorted R l -> StronglySorted (fun a b => R b a) (rev l).
Proof.
  induction 1 as [|a l Hs IH Hall]; simpl; [constructor|].
  apply StronglySorted_app; [assumption | repeat constructor |].
  intros x y Hx [<- | []]. apply in_rev in Hx.
  rewrite Forall_forall in Hall. now apply Hall.
Qed.

Section TextOrder.
Variable text : Time -> string.

Lemma order_by_text_sorted (l : list ScheduledMessage) :
  StronglySorted (fun a b => scheduled_time_asc text a b = true)
    (order_by (scheduled_time_asc text) l).
Proof.
  apply order_by_sorted.
  - intros a b. apply String.leb_total.
  - intros a b c. apply string_leb_trans.
Qed.

Lemma rev_order_by_text_sorted (l : list ScheduledMessage) :
  StronglySorted (fun a b => scheduled_time_desc text a b = true)
    (rev (order_by (scheduled_time_asc text) l)).
Proof.
  apply (StronglySorted_rev (fun a b => scheduled_time_asc text a b = true)).
  apply order_by_text_sorted.
Qed.

Lemma rev_order_by_perm (l : list ScheduledMessage) :
  Permutation (rev (order_by (scheduled_time_asc text) l)) l.
Proof.
  rewrite <- Permutation_rev. apply order_by_perm.
Qed.

End TextOrder.

(** An engine that returns rows of equal text in rowid order when it sorts
    upwards, and in the reverse of it when it sorts downwards. *)
Definition rowid_engine (text : Time -> string) : Sqlite := {|
  time_text := text;
  order_asc := order_by (scheduled_time_asc text);
  order_desc := fun l => rev (order_by (scheduled_time_asc text) l);
  order_asc_perm := order_by_perm (scheduled_time_asc text);
  order_desc_perm := rev_order_by_perm text;
  order_asc_sorted := order_by_text_sorted text;
  order_desc_sorted := rev_order_by_text_sorted text
|}.


(** ** Small worlds to run the package in *)

(** The text go-sqlite3 binds for a time of whole seconds, for the
    instants of one day counted in seconds from its midnight in UTC:
    [2025-10-06 15:04:05-07:00], the local time of the value followed by
    its offset. *)
Definition digit (n : Z) : string :=
  String (ascii_of_nat (48 + Z.to_nat (n mod 10))) "".

Definition two_digits (n : Z) : string := digit (n / 10) ++ digit n.

Definition day_text (t : Time) : string :=
  let local := (instant t + offset t) mod 86400 in
  let off := Z.abs (offset t) in
  "2025-10-06 "
  ++ two_digits (local / 3600) ++ ":" ++ two_digits (local / 60 mod 60)
  ++ ":" ++ two_digits (local mod 60)
  ++ (if offset t <? 0 then "-" else "+")
  ++ two_digits (off / 3600) ++ ":" ++ two_digits (off / 60 mod 60).

#[export] Instance test_sqlite : Sqlite := rowid_engine day_text.

(** The clock advances by one at each reading; [alice] has written since
    any instant asked about, the query about [carol] fails, nobody else has
    written; the transport delivers to [bob] only; no statement fails. *)
Record TestWorld : Type := mkTestWorld { clock : Z }.

#[export] Instance test_collaborators : Collaborators TestWorld := {
  time_Now w := (utc (clock w), mkTestWorld (clock w + 1));
  uuid_New w := ("item-0", w);
  time_Format_RFC3339 t := "";
  time_Parse_RFC3339 t := Ok zeroTime;
  messages_countAfter sender after w :=
    (if String.eqb sender "alice@s.whatsapp.net" then Ok 1
     else if String.eqb sender "carol@s.whatsapp.net"
          then Err "database is locked"
          else Ok 0, w);
  messages_lastTimestamp sender w := (NoRows, w);
  messageSender recipient message mediaPath w :=
    (if String.eqb recipient "bob@s.whatsapp.net" then (true, "")
     else (false, "not connected"), w);
  scheduler_Exec w := (None, w)
}.

Definition item (id recipient : string) (scheduledTime : Z)
  (checkForResponse : bool) (status : string) : ScheduledMessage :=
  {| ID := id;
     Recipient := recipient;
     Message := "hello";
     ScheduledTime := utc scheduledTime;
     CreatedAt := utc 0;
     LastMessageAt := zeroTime;
     CheckForResponse := checkForResponse;
     Status := status;
     SentAt := None;
     ErrorMessage := None |}.

Definition alice_item : ScheduledMessage :=
  item "a" "alice@s.whatsapp.net" 1000 true "pending".
Definition bob_item : ScheduledMessage :=
  item "b" "bob@s.whatsapp.net" 5 false "pending".
Definition carol_item : ScheduledMessage := item "c" "carol" 5 true "pending".
Definition dave_item : ScheduledMessage := item "d" "dave" 5 true "pending".

Definition test_store : Store := [alice_item; bob_item; carol_item; dave_item].
Definition test_world : TestWorld := mkTestWorld 10.

(** A world of the same kind whose parser reads one timestamp, whose
    message table has a row for [erin] that does not parse, and whose
    query about [frank] fails. *)
Record ParseWorld : Type := mkParseWorld { parse_clock : Z }.

#[export] Instance parse_collaborators : Collaborators ParseWorld := {
  time_Now w := (utc (parse_clock w), mkParseWorld (parse_clock w + 1));
  uuid_New w := ("item-1", w);
  time_Format_RFC3339 t := "";
  time_Parse_RFC3339 t :=
    if String.eqb t "2025-10-06T15:30:00Z" then Ok (utc 1000)
    else Err "cannot parse";
  messages_countAfter sender after w := (Ok 0, w);
  messages_lastTimestamp sender w :=
    (if String.eqb sender "erin@s.whatsapp.net" then Row "yesterday"
     else if String.eqb sender "frank@s.whatsapp.net"
          then RowErr "database is locked"
          else if String.eqb sender "gina@s.whatsapp.net"
               then Row "2025-10-06T15:30:00Z"
               else NoRows, w);
  messageSender recipient message mediaPath w := ((true, ""), w);
  scheduler_Exec w := (None, w)
}.

Definition erin_item : ScheduledMessage :=
  {| ID := "item-1";
     Recipient := "erin@s.whatsapp.net";
     Message := "hi";
     ScheduledTime := utc 1000;
     CreatedAt := utc 11;
     LastMessageAt := zeroTime;
     CheckForResponse := true;
     Status := "pending";
     SentAt := None;
     ErrorMessage := None |}.

Definition erin_request : ScheduleMessageRequest :=
  mkScheduleMessageRequest "erin" "hi" "2025-10-06T15:30:00Z" true.

Definition parse_world : ParseWorld := mkParseWorld 10.

(** The table [test_store] after the sweep of a pass: [alice]'s item
    paused. *)
Definition test_swept : Store :=
  [{| ID := "a";
      Recipient := "alice@s.whatsapp.net";
      Message := "hello";
      ScheduledTime := utc 1000;
      CreatedAt := utc 0;
      LastMessageAt := zeroTime;
      CheckForResponse := true;
      Status := "paused";
      SentAt := None;
      ErrorMessage := Some "Recipient responded before scheduled time" |};
   bob_item; carol_item; dave_item].

Definition settled_store : Store :=
  [item "s" "bob@s.whatsapp.net" 5 false "cancelled";
   item "t" "dave" 5 true "paused"].

(** A world that follows a script: the answers of the successive checks
    of a response, the outcomes of the successive calls of the sender and
    of the successive statements, each list read from its head and
    followed by its default (nobody has written, the transport delivers,
    the statement is executed). *)
Record ScriptWorld : Type := mkScriptWorld {
  script_clock : Z;
  script_checks : list (result Z);
  script_sends : list (bool * string);
  script_execs : list (option string)
}.

#[export] Instance script_collaborators : Collaborators ScriptWorld := {
  time_Now w :=
    (utc (script_clock w),
     mkScriptWorld (script_clock w + 1) (script_checks w) (script_sends w)
       (script_execs w));
  uuid_New w := ("item-2", w);
  time_Format_RFC3339 t := "";
  time_Parse_RFC3339 t := Err "cannot parse";
  messages_countAfter sender after w :=
    match script_checks w with
    | [] => (Ok 0, w)
    | answer :: rest =>
        (answer,
         mkScriptWorld (script_clock w) rest (script_sends w) (script_execs w))
    end;
  messages_lastTimestamp sender w := (NoRows, w);
  messageSender recipient message mediaPath w :=
    match script_sends w with
    | [] => ((true, ""), w)
    | outcome :: rest =>
        (outcome,
         mkScriptWorld (script_clock w) (script_checks w) rest (script_execs w))
    end;
  scheduler_Exec w :=
    match script_execs w with
    | [] => (None, w)
    | outcome :: rest =>
        (outcome,
         mkScriptWorld (script_clock w) (script_checks w) (script_sends w) rest)
    end
}.

(** Times of one day with unlike offsets, the clock at noon UTC: [early]
    is 10:00 at five hours behind UTC, that is 15:00 UTC and not yet due;
    [late] is 20:00 at nine hours ahead, that is 11:00 UTC and due; [utc11]
    is 11:00 UTC. *)
Definition noon : Z := 43200.

Definition offset_item (id : string) (scheduledTime : Time)
  : ScheduledMessage :=
  {| ID := id;
     Recipient := "bob@s.whatsapp.net";
     Message := "hello";
     ScheduledTime := scheduledTime;
     CreatedAt := utc 0;
     LastMessageAt := zeroTime;
     CheckForResponse := false;
     Status := "pending";
     SentAt := None;
     ErrorMessage := None |}.

Definition early_item : ScheduledMessage :=
  offset_item "early" (mkTime 54000 (-18000)).
Definition late_item : ScheduledMessage :=
  offset_item "late" (mkTime 39600 32400).
Definition utc11_item : ScheduledMessage := offset_item "utc11" (utc 39600).

Definition offset_store : Store := [early_item; late_item; utc11_item].

(** An item whose recipient writes between the sweep and the delivery of
    a pass: the first check answers that nobody has written, the second
    that somebody has. *)
Definition race_item : ScheduledMessage := item "r" "rita" 5 true "pending".
Definition race_store : Store := [race_item].

(** A world where the first statement of the scheduler database fails. *)
Definition locked_world : ScriptWorld :=
  mkScriptWorld 10 [] [] [Some "database is locked"].

(** A request that cancels [bob]'s item after a pass has read the due
    list and before the pass delivers it. *)
Definition stale_due : list ScheduledMessage :=
  GetPendingMessages (utc 10) [bob_item].
Definition cancelled_store : Store :=
  snd (handleScheduledItem (cancel "b") [bob_item]).
Definition stale_delivery
  : TestWorld * Store * list (SendCall TestWorld) :=
  deliver stale_due (mkTestWorld 11) cancelled_store.

(** ** Facts on strings *)

Section StringFacts.

Lemma length_append (a b : string) :
  String.length (a ++ b) = (String.length a + String.length b)%nat.
Proof. induction a as [|c a IH]; simpl; [reflexivity | now rewrite IH]. Qed.

Lemma append_nil_r (a : string) : a ++ "" = a.
Proof. induction a as [|c a IH]; simpl; [reflexivity | now rewrite IH]. Qed.

Lemma substring_0_append (b c : string) :
  substring 0 (String.length b) (b ++ c) = b.
Proof.
  induction b as [|x b IH]; simpl.
  - destruct c; reflexivity.
  - now rewrite IH.
Qed.

Lemma substring_append (a b c : string) :
  substring (String.length a) (String.length b) (a ++ b ++ c) = b.
Proof.
  induction a as [|x a IH]; simpl.
  - apply substring_0_append.
  - exact IH.
Qed.

(** A slice that fits is a factor of the string, at the offset asked for. *)
Lemma substring_split (n m : nat) (s : string) :
  (n + m <= String.length s)%nat ->
  exists pre post,
    s = pre ++ substring n m s ++ post /\ String.length pre = n
    /\ String.length (substring n m s) = m.
Proof.
  revert m s. induction n as [|n IH]; intros m s Hlen.
  - revert s Hlen. induction m as [|m IHm]; intros s Hlen.
    + exists "", s. destruct s; simpl; auto.
    + destruct s as [|c s]; simpl in Hlen; [lia|].
      destruct (IHm s ltac:(lia)) as (pre & post & Hs & Hpre & Hl).
      destruct pre; [|discriminate].
      exists "", post. simpl. simpl in Hs. rewrite <- Hs. auto.
  - destruct s as [|c s]; simpl in Hlen; [lia|].
    destruct (IH m s ltac:(lia)) as (pre & post & Hs & Hpre & Hl).
    exists (String c pre), post. simpl. rewrite <- Hs. auto.
Qed.

End StringFacts.

(** ** [contains] is the substring test *)

Section Contains.

Lemma len_nonneg (s : string) : 0 <= len s.
Proof. unfold len. lia. Qed.

Lemma len_append (a b : string) : len (a ++ b) = len a + len b.
Proof. unfold len. rewrite length_append. lia. Qed.

Lemma len_0 (s : string) : len s = 0 -> s = "".
Proof. destruct s; [reflexivity | unfold len; simpl; lia]. Qed.

Lemma slice_in_range (s : string) (lo hi : Z) :
  0 <= lo <= hi -> hi <= len s ->
  slice s lo hi = Some (substring (Z.to_nat lo) (Z.to_nat (hi - lo)) s).
Proof.
  intros [Hlo Hhi] Hlen. unfold slice.
  destruct (0 <=? lo) eqn:E1; [|lia].
  destruct (lo <=? hi) eqn:E2; [|lia].
  destruct (hi <=? len s) eqn:E3; [|lia].
  reflexivity.
Qed.

Lemma slice_eq_in_range (s substr : string) (lo hi : Z) :
  0 <= lo <= hi -> hi <= len s ->
  exists b, slice_eq s lo hi substr = Some b.
Proof.
  intros H1 H2. unfold slice_eq. rewrite slice_in_range by assumption.
  simpl. eauto.
Qed.

Lemma slice_eq_true (s substr : string) (lo hi : Z) :
  slice_eq s lo hi substr = Some true -> Substring substr s.
Proof.
  unfold slice_eq, slice. intros Heq.
  destruct ((0 <=? lo) && (lo <=? hi) && (hi <=? len s)) eqn:E;
    [|discriminate].
  apply andb_true_iff in E as [E E3]. apply andb_true_iff in E as [E1 E2].
  simpl in Heq. injection Heq as Heq. apply String.eqb_eq in Heq.
  unfold len in E3.
  destruct (substring_split (Z.to_nat lo) (Z.to_nat (hi - lo)) s)
    as (pre & post & Hs & _ & _); [lia|].
  rewrite Heq in Hs. now exists pre, post.
Qed.

Lemma slice_eq_at (pre substr post : string) :
  slice_eq (pre ++ substr ++ post) (len pre) (len pre + len substr) substr
  = Some true.
Proof.
  unfold slice_eq. rewrite slice_in_range.
  - replace (Z.to_nat (len pre)) with (String.length pre)
      by (unfold len; lia).
    replace (Z.to_nat (len pre + len substr - len pre))
      with (String.length substr) by (unfold len; lia).
    rewrite substring_append. simpl. now rewrite String.eqb_refl.
  - pose proof (len_nonneg pre). pose proof (len_nonneg substr). lia.
  - rewrite !len_append. pose proof (len_nonneg post). lia.
Qed.

(** The loop neither panics nor misses an index, as long as its last
    slice fits. *)
Lemma containsMiddle_from_spec (r : nat) (s substr : string) (i : Z) :
  0 <= i -> i + Z.of_nat r - 1 + len substr <= len s ->
  exists b,
    containsMiddle_from r s substr i = Some b
    /\ (b = true <->
        exists j, i <= j < i + Z.of_nat r
                  /\ slice_eq s j (j + len substr) substr = Some true).
Proof.
  revert i. induction r as [|r IH]; intros i Hi Hfit.
  - exists false. split; [reflexivity|]. split; [discriminate|].
    intros (j & Hj & _). lia.
  - cbn [containsMiddle_from].
    pose proof (len_nonneg substr) as Hsub.
    destruct (slice_eq_in_range s substr i (i + len substr)) as [b Hb];
      [lia | lia |].
    rewrite Hb. destruct b.
    + exists true. split; [reflexivity|]. split; [|reflexivity].
      intros _. exists i. split; [lia | assumption].
    + destruct (IH (i + 1)) as (b & Hrun & Hiff); [lia | lia |].
      exists b. split; [assumption|]. rewrite Hiff. split.
      * intros (j & Hj & Hslice). exists j. split; [lia | assumption].
      * intros (j & Hj & Hslice).
        assert (j = i \/ i + 1 <= j) as [-> | Hlt] by lia.
        -- congruence.
        -- exists j. split; [lia | assumption].
Qed.

Lemma Substring_len (substr s : string) :
  Substring substr s -> len substr <= len s.
Proof.
  intros (pre & post & ->). rewrite !len_append.
  pose proof (len_nonneg pre). pose proof (len_nonneg post). lia.
Qed.

Lemma Substring_same_len (substr s : string) :
  Substring substr s -> len s = len substr -> s = substr.
Proof.
  intros (pre & post & ->) Hlen. rewrite !len_append in Hlen.
  pose proof (len_nonneg pre). pose proof (len_nonneg post).
  rewrite (len_0 pre), (len_0 post) by lia. simpl. apply append_nil_r.
Qed.

Lemma containsMiddle_spec (s substr : string) :
  len substr <= len s ->
  exists b,
    containsMiddle s substr = Some b /\ (b = true <-> Substring substr s).
Proof.
  intros Hlen. unfold containsMiddle.
  destruct (containsMiddle_from_spec
              (Z.to_nat (len s - len substr + 1)) s substr 0)
    as (b & Hrun & Hiff); [lia | lia |].
  exists b. split; [assumption|]. rewrite Hiff. split.
  - intros (j & _ & Hslice). eapply slice_eq_true; eassumption.
  - intros (pre & post & ->). exists (len pre). split.
    + rewrite !len_append. pose proof (len_nonneg pre).
      pose proof (len_nonneg post). lia.
    + apply slice_eq_at.
Qed.

(** [contains] returns, and returns the answer of the substring test
    whenever the pattern is not empty. *)
Lemma contains_spec (s substr : string) :
  substr <> "" ->
  exists b, contains s substr = Some b /\ (b = true <-> Substring substr s).
Proof.
  intros Hne. unfold contains.
  assert (0 < len substr) as Hsub.
  { pose proof (len_nonneg substr). destruct (Z.eq_dec (len substr) 0) as [E|E];
      [apply len_0 in E; contradiction | lia]. }
  destruct (0 <? len s) eqn:Es; cbn [and_then].
  2:{ exists false. split; [reflexivity|]. split; [discriminate|].
      intros Hin. apply Substring_len in Hin. lia. }
  destruct (0 <? len substr) eqn:Ep; [|lia]. cbn [and_then].
  destruct (String.eqb s "") eqn:E0.
  { apply String.eqb_eq in E0. subst s. unfold len in Es. simpl in Es. lia. }
  cbn [negb and_then].
  destruct (String.eqb substr "") eqn:E1.
  { apply String.eqb_eq in E1. contradiction. }
  cbn [negb and_then].
  destruct (String.eqb s substr) eqn:Eeq; cbn [or_else].
  { apply String.eqb_eq in Eeq. subst s. exists true. split; [reflexivity|].
    split; [|reflexivity]. intros _. exists "", "". simpl.
    now rewrite append_nil_r. }
  apply String.eqb_neq in Eeq.
  destruct (len substr <? len s) eqn:Elt; cbn [and_then].
  2:{ exists false. split; [reflexivity|]. split; [discriminate|].
      intros Hin. pose proof (Substring_len _ _ Hin).
      exfalso. apply Eeq. apply Substring_same_len; [assumption | lia]. }
  destruct (slice_eq_in_range s substr 0 (len substr)) as [b1 H1];
    [lia | lia |].
  destruct (slice_eq_in_range s substr (len s - len substr) (len s))
    as [b2 H2]; [lia | lia |].
  destruct (containsMiddle_spec s substr) as (b3 & H3 & Hiff); [lia|].
  rewrite H1. destruct b1; cbn [or_else].
  { exists true. split; [reflexivity|]. split; [|reflexivity].
    intros _. eapply slice_eq_true; eassumption. }
  rewrite H2. destruct b2; cbn [or_else].
  { exists true. split; [reflexivity|]. split; [|reflexivity].
    intros _. eapply slice_eq_true; eassumption. }
  exists b3. split; assumption.
Qed.

Lemma contains_empty_pattern (s : string) : contains s "" = Some false.
Proof. unfold contains. destruct (0 <? len s); reflexivity. Qed.

Lemma contains_total (s substr : string) :
  exists b, contains s substr = Some b.
Proof.
  destruct (string_dec substr "") as [-> | Hne].
  - exists false. apply contains_empty_pattern.
  - destruct (contains_spec s substr Hne) as (b & Hb & _). eauto.
Qed.

(** One character as a pattern: a factor is an occurrence. *)
Lemma Substring_char (c : ascii) (s : string) :
  Substring (String c "") s <-> In c (list_ascii_of_string s).
Proof.
  split.
  - intros (pre & post & ->). induction pre as [|x pre IH]; simpl; auto.
  - induction s as [|x s IH]; simpl; [tauto|]. intros [-> | Hin].
    + exists "", s. reflexivity.
    + destruct (IH Hin) as (pre & post & ->).
      exists (String x pre), post. reflexivity.
Qed.

Lemma append_neq_self (a b : string) : b <> "" -> a ++ b <> a.
Proof.
  intros Hb Heq. apply (f_equal String.length) in Heq.
  rewrite length_append in Heq. destruct b; [contradiction | simpl in Heq; lia].
Qed.

End Contains.

(** C10. For every string [s] and every non-empty pattern [substr], the
    helper [contains] returns (no slice is out of range) and its answer is
    that of the standard substring predicate: [true] exactly when [substr]
    is a contiguous factor of [s], [false] exactly when it is not.
    Consequently recipient normalisation appends ["@s.whatsapp.net"]
    exactly when the recipient holds no ["@"] character, and returns the
    recipient as it is otherwise. *)
Theorem contains_refines_substring :
  (forall s substr, substr <> "" ->
     (contains s substr = Some true <-> Substring substr s)
     /\ (contains s substr = Some false <-> ~ Substring substr s))
  /\ (forall recipient,
        (normalizeRecipient recipient = recipient ++ "@s.whatsapp.net"
         <-> ~ In "@"%char (list_ascii_of_string recipient))
        /\ (In "@"%char (list_ascii_of_string recipient) ->
            normalizeRecipient recipient = recipient)).
Proof.
  assert (Hspec : forall s substr, substr <> "" ->
     (contains s substr = Some true <-> Substring substr s)
     /\ (contains s substr = Some false <-> ~ Substring substr s)).
  { intros s substr Hne.
    destruct (contains_spec s substr Hne) as (b & Hb & Hiff).
    rewrite Hb. destruct Hiff as [Hto Hfrom]. destruct b.
    - specialize (Hto eq_refl). split; split.
      + intros _. exact Hto.
      + reflexivity.
      + discriminate.
      + intros Hnot. contradiction.
    - assert (Hnot : ~ Substring substr s).
      { intros Hin. specialize (Hfrom Hin). discriminate. }
      split; split.
      + discriminate.
      + intros Hin. contradiction.
      + intros _. exact Hnot.
      + reflexivity. }
  split; [exact Hspec|].
  intros recipient. rewrite <- Substring_char.
  destruct (Hspec recipient "@" ltac:(discriminate)) as [Ht Hf].
  unfold normalizeRecipient.
  destruct (contains recipient "@") as [[|]|] eqn:E.
  - assert (Hin : Substring "@" recipient) by now apply Ht.
    split; [|reflexivity]. split; [|tauto].
    intros Heq. exfalso. symmetry in Heq.
    revert Heq. apply append_neq_self. discriminate.
  - assert (Hnin : ~ Substring "@" recipient) by now apply Hf.
    split; [tauto|]. intros Hin. contradiction.
  - destruct (contains_total recipient "@") as [b Hb]. congruence.
Qed.

(** ** The persistence layer: lookups, updates and the primary key *)

Section StoreFacts.

Lemma GetScheduledMessage_In (id : string) (s : Store) (msg : ScheduledMessage) :
  GetScheduledMessage id s = Ok msg -> In msg s /\ ID msg = id.
Proof.
  unfold GetScheduledMessage.
  destruct (find _ s) as [row|] eqn:Hfind; [|discriminate].
  intros [= <-]. apply find_some in Hfind as [Hin Heq].
  apply String.eqb_eq in Heq. auto.
Qed.

Lemma In_GetScheduledMessage (s : Store) (msg : ScheduledMessage) :
  wf_store s -> In msg s -> GetScheduledMessage (ID msg) s = Ok msg.
Proof.
  unfold wf_store, GetScheduledMessage.
  induction s as [|row s IH]; simpl; [tauto|].
  intros Hnd [-> | Hin].
  - now rewrite String.eqb_refl.
  - inversion Hnd as [|? ? Hnotin Hnd']; subst.
    destruct (String.eqb (ID row) (ID msg)) eqn:E.
    + apply String.eqb_eq in E. exfalso. apply Hnotin. rewrite E.
      now apply in_map.
    + now apply IH.
Qed.

Lemma UpdateMessageStatus_ids id status sentAt errorMsg (s : Store) :
  map ID (UpdateMessageStatus id status sentAt errorMsg s) = map ID s.
Proof.
  unfold UpdateMessageStatus. rewrite map_map. apply map_ext.
  intros row. now destruct (String.eqb (ID row) id).
Qed.

Lemma UpdateMessageStatus_wf id status sentAt errorMsg (s : Store) :
  wf_store s -> wf_store (UpdateMessageStatus id status sentAt errorMsg s).
Proof. unfold wf_store. now rewrite UpdateMessageStatus_ids. Qed.

Lemma GetScheduledMessage_update_same id status sentAt errorMsg s msg :
  GetScheduledMessage id s = Ok msg ->
  GetScheduledMessage id (UpdateMessageStatus id status sentAt errorMsg s)
  = Ok (set_status status sentAt errorMsg msg).
Proof.
  unfold GetScheduledMessage, UpdateMessageStatus.
  induction s as [|row s IH]; simpl; [discriminate|].
  destruct (String.eqb (ID row) id) eqn:E; simpl.
  - rewrite E. now intros [= ->].
  - rewrite E. exact IH.
Qed.

Lemma GetScheduledMessage_update_other id id' status sentAt errorMsg s :
  id' <> id ->
  GetScheduledMessage id' (UpdateMessageStatus id status sentAt errorMsg s)
  = GetScheduledMessage id' s.
Proof.
  intros Hne. unfold GetScheduledMessage, UpdateMessageStatus.
  induction s as [|row s IH]; simpl; [reflexivity|].
  destruct (String.eqb (ID row) id) eqn:E; simpl.
  - apply String.eqb_eq in E.
    destruct (String.eqb (ID row) id') eqn:E'.
    + apply String.eqb_eq in E'. congruence.
    + exact IH.
  - destruct (String.eqb (ID row) id'); [reflexivity | exact IH].
Qed.

Lemma set_status_twice st sa em st' sa' em' row :
  set_status st' sa' em' (set_status st sa em row) = set_status st' sa' em' row.
Proof. reflexivity. Qed.

Lemma InsertScheduledMessage_wf msg s s' :
  wf_store s -> InsertScheduledMessage msg s = Ok s' -> wf_store s'.
Proof.
  unfold InsertScheduledMessage, wf_store.
  destruct (existsb _ s) eqn:E; [discriminate|].
  intros Hnd [= <-]. rewrite map_app. simpl.
  apply NoDup_app; [assumption | repeat constructor; simpl; tauto |].
  intros id Hin [<- | []]. apply in_map_iff in Hin as (row & Heq & Hin).
  assert (Hex : existsb (fun row => String.eqb (ID row) (ID msg)) s = true).
  { apply existsb_exists. exists row. split; [assumption|].
    now apply String.eqb_eq. }
  congruence.
Qed.

Lemma InsertScheduledMessage_keeps msg s s' id :
  InsertScheduledMessage msg s = Ok s' ->
  forall row, GetScheduledMessage id s = Ok row ->
              GetScheduledMessage id s' = Ok row.
Proof.
  unfold InsertScheduledMessage.
  destruct (existsb _ s); [discriminate|]. intros [= <-] row.
  unfold GetScheduledMessage.
  induction s as [|r s IH]; simpl; [discriminate|].
  destruct (String.eqb (ID r) id); [tauto | exact IH].
Qed.

End StoreFacts.
(** ** The list queries *)

Section QueryFacts.
Context `{Sqlite}.

Lemma order_asc_In (l : list ScheduledMessage) (row : ScheduledMessage) :
  In row (order_asc l) <-> In row l.
Proof.
  split; apply Permutation_in;
    [apply order_asc_perm | symmetry; apply order_asc_perm].
Qed.

Lemma order_desc_In (l : list ScheduledMessage) (row : ScheduledMessage) :
  In row (order_desc l) <-> In row l.
Proof.
  split; apply Permutation_in;
    [apply order_desc_perm | symmetry; apply order_desc_perm].
Qed.

Lemma filter_ids_NoDup (p : ScheduledMessage -> bool) (s : Store) :
  wf_store s -> NoDup (map ID (filter p s)).
Proof.
  unfold wf_store. induction s as [|row s IH]; simpl; [constructor|].
  intros Hnd. inversion Hnd as [|? ? Hnotin Hnd']; subst.
  destruct (p row); simpl; [|now apply IH].
  constructor; [|now apply IH].
  intros Hin. apply Hnotin. apply in_map_iff in Hin as (r & Heq & Hin).
  apply filter_In in Hin as [Hin _]. rewrite <- Heq. now apply in_map.
Qed.

Lemma GetPendingMessages_In (now : Time) (s : Store) (row : ScheduledMessage) :
  In row (GetPendingMessages now s)
  <-> In row s /\ Status row = "pending"
      /\ String.leb (time_text (ScheduledTime row)) (time_text now) = true.
Proof.
  unfold GetPendingMessages. rewrite order_asc_In, filter_In.
  unfold is_due. rewrite andb_true_iff, String.eqb_eq. tauto.
Qed.

Lemma GetPendingMessages_NoDup (now : Time) (s : Store) :
  wf_store s -> NoDup (map ID (GetPendingMessages now s)).
Proof.
  intros Hwf. unfold GetPendingMessages.
  apply (Permutation_NoDup (l := map ID (filter (is_due now) s))).
  - apply Permutation_map. symmetry. apply order_asc_perm.
  - now apply filter_ids_NoDup.
Qed.

Lemma GetAllScheduledMessages_In status recipient (s : Store) row :
  In row (GetAllScheduledMessages status recipient s)
  <-> In row s
      /\ (status = "" \/ Status row = status)
      /\ (recipient = "" \/ Recipient row = recipient).
Proof.
  unfold GetAllScheduledMessages. rewrite order_desc_In, filter_In.
  unfold matches_filters. rewrite andb_true_iff, !orb_true_iff, !String.eqb_eq.
  tauto.
Qed.

Lemma GetAllScheduledMessages_NoDup status recipient (s : Store) :
  wf_store s -> NoDup (map ID (GetAllScheduledMessages status recipient s)).
Proof.
  intros Hwf. unfold GetAllScheduledMessages.
  apply (Permutation_NoDup
           (l := map ID (filter (matches_filters status recipient) s))).
  - apply Permutation_map. symmetry. apply order_desc_perm.
  - now apply filter_ids_NoDup.
Qed.

Lemma GetAllPending_In (s : Store) row :
  In row (GetAllScheduledMessages "pending" "" s)
  <-> In row s /\ Status row = "pending".
Proof.
  rewrite GetAllScheduledMessages_In. split.
  - intros (Hin & [Hs | Hs] & _); [discriminate | auto].
  - intros [Hin Hs]. auto.
Qed.

Lemma GetFutureMessagesForRecipient_In recipient now (s : Store) row :
  In row (GetFutureMessagesForRecipient recipient now s)
  <-> In row s /\ Recipient row = recipient /\ Status row = "pending"
      /\ String.ltb (time_text now) (time_text (ScheduledTime row)) = true
      /\ CheckForResponse row = true.
Proof.
  unfold GetFutureMessagesForRecipient. rewrite order_asc_In, filter_In.
  unfold is_future_for. rewrite !andb_true_iff, !String.eqb_eq. tauto.
Qed.

Lemma sorted_asc_text (l : list ScheduledMessage) :
  StronglySorted
    (fun a b => String.leb (time_text (ScheduledTime a))
                  (time_text (ScheduledTime b)) = true)
    (order_asc l).
Proof. apply order_asc_sorted. Qed.

Lemma sorted_desc_text (l : list ScheduledMessage) :
  StronglySorted
    (fun a b => String.leb (time_text (ScheduledTime b))
                  (time_text (ScheduledTime a)) = true)
    (order_desc l).
Proof. apply order_desc_sorted. Qed.

End QueryFacts.


Section DueQuery.
Context `{Sqlite}.


End DueQuery.

(** C9. [UpdateMessageStatus] keeps every row in its place; in a row of
    the given identifier it overwrites the status, the sent time and the
    error message with the values supplied, whatever they were, and leaves
    the identifier, recipient, message, scheduled time, creation time,
    last-message baseline and response-check flag as they are; every other
    row is unchanged. *)
Theorem UpdateMessageStatus_frame (id status : string) (sentAt : option Time)
  (errorMsg : option string) (s : Store) :
  List.length (UpdateMessageStatus id status sentAt errorMsg s) = List.length s
  /\ forall i row,
       nth_error s i = Some row ->
       exists row',
         nth_error (UpdateMessageStatus id status sentAt errorMsg s) i
         = Some row'
         /\ ID row' = ID row
         /\ Recipient row' = Recipient row
         /\ Message row' = Message row
         /\ ScheduledTime row' = ScheduledTime row
         /\ CreatedAt row' = CreatedAt row
         /\ LastMessageAt row' = LastMessageAt row
         /\ CheckForResponse row' = CheckForResponse row
         /\ (ID row = id ->
             Status row' = status /\ SentAt row' = sentAt
             /\ ErrorMessage row' = errorMsg)
         /\ (ID row <> id -> row' = row).
Proof.
  unfold UpdateMessageStatus. split; [apply length_map|].
  intros i row Hnth. rewrite nth_error_map, Hnth. simpl.
  destruct (String.eqb (ID row) id) eqn:E.
  - apply String.eqb_eq in E.
    eexists. split; [reflexivity|]. simpl. repeat split; tauto.
  - apply String.eqb_neq in E.
    exists row. split; [reflexivity|]. repeat split; tauto.
Qed.

(** ** The control surface *)

Section HandlerFacts.

Lemma same_item_refl row : same_item row row.
Proof. repeat split. Qed.

Lemma same_item_trans a b c : same_item a b -> same_item b c -> same_item a c.
Proof.
  unfold same_item. intros (?&?&?&?&?&?&?) (?&?&?&?&?&?&?).
  repeat split; congruence.
Qed.

Lemma same_item_set_status st sa em row :
  same_item row (set_status st sa em row).
Proof. repeat split. Qed.

(** The lookup after an update of the row looked up: the three columns
    written hold the values given, the others are kept. *)
Lemma GetScheduledMessage_updated id st sa em (s : Store) row0 :
  GetScheduledMessage id s = Ok row0 ->
  exists row,
    GetScheduledMessage id (UpdateMessageStatus id st sa em s) = Ok row
    /\ Status row = st /\ SentAt row = sa /\ ErrorMessage row = em
    /\ same_item row0 row.
Proof.
  intros Hget. eexists.
  split; [apply GetScheduledMessage_update_same; exact Hget|].
  simpl. repeat split.
Qed.


Lemma handle_patch_on (action id : string) (read written : Store)
  (msg : ScheduledMessage) :
  id <> "" -> GetScheduledMessage id read = Ok msg ->
  handleScheduledItemOn (mkRequest "PATCH" id (Some action)) read written
  = match patchTransition action msg with
    | Err text => (HttpError text StatusBadRequest, written)
    | Ok (newStatus, reason) =>
        (JsonSuccess ("Message " ++ action ++ "d successfully"),
         UpdateMessageStatus id newStatus None reason written)
    end.
Proof.
  intros Hid Hget. unfold handleScheduledItemOn. simpl.
  apply String.eqb_neq in Hid. rewrite Hid, Hget. reflexivity.
Qed.


Lemma handle_patch (action id : string) (s : Store) (msg : ScheduledMessage) :
  id <> "" -> GetScheduledMessage id s = Ok msg ->
  handleScheduledItem (mkRequest "PATCH" id (Some action)) s
  = match patchTransition action msg with
    | Err text => (HttpError text StatusBadRequest, s)
    | Ok (newStatus, reason) =>
        (JsonSuccess ("Message " ++ action ++ "d successfully"),
         UpdateMessageStatus id newStatus None reason s)
    end.
Proof. apply handle_patch_on. Qed.

(** Whatever the request, the handler leaves the table it writes alone or
    applies one of its three updates, decided on the row it looked up in
    the table it read. *)
Lemma handleScheduledItemOn_cases (r : Request) (read written : Store) :
  snd (handleScheduledItemOn r read written) = written
  \/ exists msg,
       GetScheduledMessage (req_ID r) read = Ok msg
       /\ ((Status msg = "pending" \/ Status msg = "paused")
           /\ snd (handleScheduledItemOn r read written)
              = UpdateMessageStatus (req_ID r) "cancelled" None
                  (Some "Cancelled by user") written
           \/ Status msg = "pending"
              /\ snd (handleScheduledItemOn r read written)
                 = UpdateMessageStatus (req_ID r) "paused" None
                     (Some "Paused by user") written
           \/ Status msg = "paused"
              /\ snd (handleScheduledItemOn r read written)
                 = UpdateMessageStatus (req_ID r) "pending" None None written).
Proof.
  unfold handleScheduledItemOn.
  destruct (String.eqb (req_ID r) ""); [now left|].
  destruct (String.eqb (req_Method r) "GET").
  { left. now destruct (GetScheduledMessage _ read). }
  destruct (String.eqb (req_Method r) "DELETE").
  { destruct (GetScheduledMessage _ read) as [msg|] eqn:Hget; [|now left].
    destruct (String.eqb (Status msg) "pending") eqn:E1; simpl.
    - right. exists msg. apply String.eqb_eq in E1. auto.
    - destruct (String.eqb (Status msg) "paused") eqn:E2; simpl;
        [|now left].
      right. exists msg. apply String.eqb_eq in E2. auto. }
  destruct (String.eqb (req_Method r) "PATCH"); [|now left].
  destruct (req_Action r) as [action|]; [|now left].
  destruct (GetScheduledMessage _ read) as [msg|] eqn:Hget; [|now left].
  unfold patchTransition.
  destruct (String.eqb action "pause").
  { destruct (String.eqb (Status msg) "pending") eqn:E; simpl; [|now left].
    right. exists msg. apply String.eqb_eq in E. auto. }
  destruct (String.eqb action "resume"); [|now left].
  destruct (String.eqb (Status msg) "paused") eqn:E; simpl; [|now left].
  right. exists msg. apply String.eqb_eq in E. auto 6.
Qed.

Lemma handleScheduledItem_cases (r : Request) (s : Store) :
  snd (handleScheduledItem r s) = s
  \/ exists msg,
       GetScheduledMessage (req_ID r) s = Ok msg
       /\ ((Status msg = "pending" \/ Status msg = "paused")
           /\ snd (handleScheduledItem r s)
              = UpdateMessageStatus (req_ID r) "cancelled" None
                  (Some "Cancelled by user") s
           \/ Status msg = "pending"
              /\ snd (handleScheduledItem r s)
                 = UpdateMessageStatus (req_ID r) "paused" None
                     (Some "Paused by user") s
           \/ Status msg = "paused"
              /\ snd (handleScheduledItem r s)
                 = UpdateMessageStatus (req_ID r) "pending" None None s).
Proof. apply handleScheduledItemOn_cases. Qed.

End HandlerFacts.


(** ** The engine: statements that can fail *)

Section ExecFacts.
Context {World : Type} `{Collaborators World} `{Sqlite}.

Lemma execUpdateMessageStatus_ok id st sa em (w w' : World) (s : Store) :
  scheduler_Exec w = (None, w') ->
  execUpdateMessageStatus id st sa em w s
  = (None, w', UpdateMessageStatus id st sa em s).
Proof. unfold execUpdateMessageStatus. now intros ->. Qed.

Lemma execUpdateMessageStatus_fails id st sa em (w w' : World) (s : Store) e :
  scheduler_Exec w = (Some e, w') ->
  execUpdateMessageStatus id st sa em w s = (Some e, w', s).
Proof. unfold execUpdateMessageStatus. now intros ->. Qed.

(** An update of the engine is made, or it fails and the table is the one
    before. *)
Lemma execUpdateMessageStatus_store id st sa em (w : World) (s : Store)
  err w' s' :
  execUpdateMessageStatus id st sa em w s = (err, w', s') ->
  err = None /\ scheduler_Exec w = (None, w')
  /\ s' = UpdateMessageStatus id st sa em s
  \/ exists e, err = Some e /\ scheduler_Exec w = (Some e, w') /\ s' = s.
Proof.
  unfold execUpdateMessageStatus.
  destruct (scheduler_Exec w) as [[e|] w1]; intros [= <- <- <-].
  - right. eauto.
  - left. auto.
Qed.

Lemma execInsertScheduledMessage_store msg (w : World) (s : Store) err w' s' :
  execInsertScheduledMessage msg w s = (err, w', s') ->
  err = None /\ scheduler_Exec w = (None, w')
  /\ InsertScheduledMessage msg s = Ok s'
  \/ exists e,
       err = Some e /\ s' = s
       /\ (scheduler_Exec w = (Some e, w')
           \/ scheduler_Exec w = (None, w')
              /\ InsertScheduledMessage msg s = Err e).
Proof.
  unfold execInsertScheduledMessage.
  destruct (scheduler_Exec w) as [[e|] w1].
  - intros [= <- <- <-]. right. eauto.
  - destruct (InsertScheduledMessage msg s) as [s1|e];
      intros [= <- <- <-]; [left | right]; eauto 6.
Qed.

End ExecFacts.

Ltac exec_cases :=
  match goal with
  | |- context [execUpdateMessageStatus ?id ?st ?sa ?em ?w ?s] =>
      let E := fresh "Eexec" in
      let err := fresh "err" in
      let w' := fresh "w" in
      let s' := fresh "s" in
      destruct (execUpdateMessageStatus id st sa em w s) as [[err w'] s'] eqn:E;
      apply execUpdateMessageStatus_store in E
  end.

(** ** The engine: what one item's evaluation does *)

Section EngineFacts.
Context {World : Type} `{Collaborators World} `{Sqlite}.

Lemma calls_for_app id (c1 c2 : list (SendCall World)) :
  calls_for id (c1 ++ c2) = (calls_for id c1 ++ calls_for id c2)%list.
Proof. apply filter_app. Qed.

Lemma no_call_for_calls_for id (calls : list (SendCall World)) :
  no_call_for id calls -> calls_for id calls = [].
Proof.
  unfold no_call_for, calls_for. induction 1 as [|c l Hc _ IH]; simpl;
    [reflexivity|].
  apply String.eqb_neq in Hc. now rewrite Hc.
Qed.

Lemma calls_for_nil id (calls : list (SendCall World)) :
  calls_for id calls = [] -> no_call_for id calls.
Proof.
  unfold no_call_for, calls_for. induction calls as [|c l IH]; simpl;
    [constructor|].
  destruct (String.eqb (ID (call_msg c)) id) eqn:E; [discriminate|].
  intros Hnil. constructor; [now apply String.eqb_neq | now apply IH].
Qed.

Lemma calls_for_own id (msg : ScheduledMessage) (w : World) :
  ID msg = id -> calls_for id [mkSendCall msg w] = [mkSendCall msg w].
Proof. intros <-. unfold calls_for. simpl. now rewrite String.eqb_refl. Qed.

(** The evaluation of an item leaves the table as it is or makes one of
    the three updates of the pass on the row of the item. *)
Lemma processSingleMessage_store msg (w : World) s err w' s' calls :
  processSingleMessage msg w s = (err, w', s', calls) ->
  s' = s
  \/ exists st sa em,
       pass_update st sa em /\ s' = UpdateMessageStatus (ID msg) st sa em s.
Proof.
  unfold processSingleMessage.
  destruct (CheckForResponse msg).
  - destruct (hasRecipientResponded _ _ w) as [[[|]|e] w0].
    + exec_cases. intros [= _ _ <- _].
      destruct Eexec as [(_ & _ & ->) | (e & _ & _ & ->)];
        eauto 6 using pass_update.
    + destruct (messageSender _ _ _ w0) as [[[|] errMsg] w1]; simpl.
      * destruct (time_Now w1) as [now w2]. exec_cases.
        intros [= _ _ <- _].
        destruct Eexec as [(_ & _ & ->) | (e & _ & _ & ->)];
          eauto 6 using pass_update.
      * exec_cases. intros [= _ _ <- _].
        destruct Eexec as [(_ & _ & ->) | (e & _ & _ & ->)];
          eauto 6 using pass_update.
    + exec_cases. intros [= _ _ <- _].
      destruct Eexec as [(_ & _ & ->) | (e' & _ & _ & ->)];
        eauto 6 using pass_update.
  - destruct (messageSender _ _ _ w) as [[[|] errMsg] w1]; simpl.
    + destruct (time_Now w1) as [now w2]. exec_cases.
      intros [= _ _ <- _].
      destruct Eexec as [(_ & _ & ->) | (e & _ & _ & ->)];
        eauto 6 using pass_update.
    + exec_cases. intros [= _ _ <- _].
      destruct Eexec as [(_ & _ & ->) | (e & _ & _ & ->)];
        eauto 6 using pass_update.
Qed.

Lemma processSingleMessage_calls msg (w : World) s err w' s' calls :
  processSingleMessage msg w s = (err, w', s', calls) ->
  calls = [] \/ exists w0, calls = [mkSendCall msg w0].
Proof.
  unfold processSingleMessage.
  destruct (CheckForResponse msg).
  - destruct (hasRecipientResponded _ _ w) as [[[|]|e] w0].
    + exec_cases. intros [= _ _ _ <-]. now left.
    + destruct (messageSender _ _ _ w0) as [[[|] errMsg] w1]; simpl.
      * destruct (time_Now w1) as [now w2]. exec_cases.
        intros [= _ _ _ <-]. eauto.
      * exec_cases. intros [= _ _ _ <-]. eauto.
    + exec_cases. intros [= _ _ _ <-]. now left.
  - destruct (messageSender _ _ _ w) as [[[|] errMsg] w1]; simpl.
    + destruct (time_Now w1) as [now w2]. exec_cases.
      intros [= _ _ _ <-]. eauto.
    + exec_cases. intros [= _ _ _ <-]. eauto.
Qed.

(** The check answers that the recipient has responded. *)
Lemma processSingleMessage_responded msg (w w1 : World) (s : Store) :
  CheckForResponse msg = true ->
  hasRecipientResponded (Recipient msg) (CreatedAt msg) w = (Ok true, w1) ->
  processSingleMessage msg w s
  = (let '(err, w2, s2) :=
       execUpdateMessageStatus (ID msg) "paused" None
         (Some RecipientResponded) w1 s in
     (err, w2, s2, [])).
Proof.
  intros Hflag Hcheck. unfold processSingleMessage.
  now rewrite Hflag, Hcheck.
Qed.


(** The flag is off, or the check answers that nobody responded: the
    sender is called, in the world [wsend]. *)
Lemma processSingleMessage_sends msg (w wsend : World) (s : Store) :
  CheckForResponse msg = false /\ wsend = w
  \/ CheckForResponse msg = true
     /\ hasRecipientResponded (Recipient msg) (CreatedAt msg) w
        = (Ok false, wsend) ->
  processSingleMessage msg w s
  = (let '((success, errMsg), w1) :=
       messageSender (Recipient msg) (Message msg) "" wsend in
     if negb success
     then
       let '(_, w2, s2) :=
         execUpdateMessageStatus (ID msg) "failed" None (Some errMsg) w1 s in
       (Some ("failed to send message: " ++ errMsg), w2, s2,
        [mkSendCall msg wsend])
     else
       let '(now, w2) := time_Now w1 in
       let '(err, w3, s3) :=
         execUpdateMessageStatus (ID msg) "sent" (Some now) None w2 s in
       (err, w3, s3, [mkSendCall msg wsend])).
Proof.
  unfold processSingleMessage.
  intros [[Hflag ->] | [Hflag Hcheck]]; rewrite Hflag; [reflexivity|].
  now rewrite Hcheck.
Qed.

End EngineFacts.

(** ** The engine: the delivery loop *)

Section DeliverFacts.
Context {World : Type} `{Collaborators World} `{Sqlite}.

Lemma deliver_ids (l : list ScheduledMessage) (w : World) s w' s' calls :
  deliver l w s = (w', s', calls) -> map ID s' = map ID s.
Proof.
  revert w s w' s' calls. induction l as [|msg l IH]; intros w s w' s' calls.
  - now intros [= _ <- _].
  - cbn [deliver].
    destruct (processSingleMessage msg w s) as [[[err w1] s1] c1] eqn:E1.
    destruct (deliver l w1 s1) as [[w2 s2] c2] eqn:E2.
    intros [= _ <- _]. rewrite (IH _ _ _ _ _ E2).
    apply processSingleMessage_store in E1 as [-> | (st & sa & em & _ & ->)];
      [reflexivity | apply UpdateMessageStatus_ids].
Qed.

Lemma deliver_app (l1 l2 : list ScheduledMessage) (w : World) (s : Store) :
  deliver (l1 ++ l2) w s
  = (let '(w1, s1, c1) := deliver l1 w s in
     let '(w2, s2, c2) := deliver l2 w1 s1 in
     (w2, s2, (c1 ++ c2)%list)).
Proof.
  revert w s. induction l1 as [|msg l1 IH]; intros w s.
  - simpl. now destruct (deliver l2 w s) as [[w2 s2] c2].
  - simpl. destruct (processSingleMessage msg w s) as [[[err w1] s1] c1].
    rewrite IH. destruct (deliver l1 w1 s1) as [[w2 s2] c2].
    destruct (deliver l2 w2 s2) as [[w3 s3] c3].
    now rewrite app_assoc.
Qed.

(** An item that is not in the list is neither touched nor sent. *)
Lemma deliver_other (l : list ScheduledMessage) (w : World) s w' s' calls id :
  deliver l w s = (w', s', calls) ->
  ~ In id (map ID l) ->
  GetScheduledMessage id s' = GetScheduledMessage id s /\ no_call_for id calls.
Proof.
  revert w s w' s' calls. induction l as [|msg l IH]; intros w s w' s' calls.
  - intros [= _ <- <-] _. split; [reflexivity | constructor].
  - cbn [deliver].
    destruct (processSingleMessage msg w s) as [[[err w1] s1] c1] eqn:E1.
    destruct (deliver l w1 s1) as [[w2 s2] c2] eqn:E2.
    intros [= _ <- <-] Hnotin. simpl in Hnotin.
    destruct (IH _ _ _ _ _ E2) as [Hget Hcalls]; [tauto|].
    pose proof (processSingleMessage_calls _ _ _ _ _ _ _ E1) as Hc1.
    split.
    + rewrite Hget.
      apply processSingleMessage_store in E1
        as [-> | (st & sa & em & _ & ->)]; [reflexivity|].
      apply GetScheduledMessage_update_other. intros ->. tauto.
    + apply Forall_app. split; [|assumption].
      destruct Hc1 as [-> | [w0 ->]]; repeat constructor. simpl.
      intros Heq. tauto.
Qed.

(** A row after the loop is the row before, or that row with one of the
    three updates of the pass, made for an item of the list. *)
Lemma deliver_rows (l : list ScheduledMessage) (w : World) s w' s' calls id row :
  deliver l w s = (w', s', calls) ->
  GetScheduledMessage id s = Ok row ->
  GetScheduledMessage id s' = Ok row
  \/ In id (map ID l)
     /\ exists st sa em,
          pass_update st sa em
          /\ GetScheduledMessage id s' = Ok (set_status st sa em row).
Proof.
  revert w s w' s' calls row.
  induction l as [|msg l IH]; intros w s w' s' calls row.
  { intros [= _ <- _] Hget. now left. }
  cbn [deliver].
  destruct (processSingleMessage msg w s) as [[[err w1] s1] c1] eqn:E1.
  destruct (deliver l w1 s1) as [[w2 s2] c2] eqn:E2.
  intros [= _ <- _] Hget.
  assert (Hrest : forall row1,
            GetScheduledMessage id s1 = Ok row1 ->
            GetScheduledMessage id s2 = Ok row1
            \/ In id (map ID (msg :: l))
               /\ exists st sa em,
                    pass_update st sa em
                    /\ GetScheduledMessage id s2 = Ok (set_status st sa em row1)).
  { intros row1 Hget1.
    destruct (IH _ _ _ _ _ _ E2 Hget1) as [Hsame | [Hin Hup]];
      [now left | right]. split; [simpl; tauto | assumption]. }
  apply processSingleMessage_store in E1 as [-> | (st & sa & em & Hup & ->)];
    [now apply Hrest|].
  destruct (string_dec (ID msg) id) as [<- | Hne].
  - right. split; [simpl; tauto|].
    pose proof (GetScheduledMessage_update_same _ st sa em _ _ Hget) as Hget1.
    destruct (Hrest _ Hget1) as [Hsame | (_ & st' & sa' & em' & Hup' & Hrow)].
    + exists st, sa, em. auto.
    + exists st', sa', em'. split; [assumption|].
      now rewrite Hrow, set_status_twice.
  - apply Hrest.
    rewrite GetScheduledMessage_update_other by congruence. assumption.
Qed.

(** The loop on a list without repeated identifiers, at one of its items:
    the row of the item is the one before the loop when its turn comes,
    the row and the calls its evaluation leaves are the ones the loop
    leaves for it. *)
Lemma deliver_at (before after : list ScheduledMessage) msg (w : World) s
  w2 s2 c2 err w3 s3 c3 w' s' calls :
  NoDup (map ID (before ++ msg :: after)) ->
  deliver before w s = (w2, s2, c2) ->
  processSingleMessage msg w2 s2 = (err, w3, s3, c3) ->
  deliver (before ++ msg :: after) w s = (w', s', calls) ->
  GetScheduledMessage (ID msg) s2 = GetScheduledMessage (ID msg) s
  /\ GetScheduledMessage (ID msg) s' = GetScheduledMessage (ID msg) s3
  /\ calls_for (ID msg) calls = c3.
Proof.
  intros Hnd Hbefore Hone. rewrite deliver_app, Hbefore. cbn [deliver].
  rewrite Hone.
  destruct (deliver after w3 s3) as [[w4 s4] c4] eqn:Eafter.
  intros [= _ <- <-].
  rewrite map_app in Hnd. simpl in Hnd.
  apply NoDup_remove_2 in Hnd.
  assert (Hnb : ~ In (ID msg) (map ID before))
    by (intros Hin; apply Hnd, in_or_app; now left).
  assert (Hna : ~ In (ID msg) (map ID after))
    by (intros Hin; apply Hnd, in_or_app; now right).
  destruct (deliver_other _ _ _ _ _ _ _ Hbefore Hnb) as [Hget2 Hcalls2].
  destruct (deliver_other _ _ _ _ _ _ _ Eafter Hna) as [Hget4 Hcalls4].
  split; [assumption|]. split; [assumption|].
  rewrite !calls_for_app.
  rewrite (no_call_for_calls_for _ _ Hcalls2).
  rewrite (no_call_for_calls_for _ _ Hcalls4). rewrite app_nil_r. simpl.
  destruct (processSingleMessage_calls _ _ _ _ _ _ _ Hone) as [-> | [w0 ->]];
    [reflexivity | now apply calls_for_own].
Qed.

End DeliverFacts.

(** ** The engine: the pre-pause sweep *)

Section SweepFacts.
Context {World : Type} `{Collaborators World} `{Sqlite}.

Lemma pauseResponded_ids (l : list ScheduledMessage) (w : World) s w' s' :
  pauseResponded l w s = (w', s') -> map ID s' = map ID s.
Proof.
  revert w s. induction l as [|msg l IH]; intros w s.
  - now intros [= _ <-].
  - cbn [pauseResponded]. destruct (CheckForResponse msg); simpl.
    + destruct (hasRecipientResponded _ _ w) as [[[|]|e] w1];
        try (intros Hrun; now apply IH in Hrun).
      exec_cases. intros Hrun. apply IH in Hrun. rewrite Hrun.
      destruct Eexec as [(_ & _ & ->) | (e & _ & _ & ->)];
        [apply UpdateMessageStatus_ids | reflexivity].
    + apply IH.
Qed.

Lemma pauseResponded_app (l1 l2 : list ScheduledMessage) (w : World)
  (s : Store) :
  pauseResponded (l1 ++ l2) w s
  = (let '(w1, s1) := pauseResponded l1 w s in pauseResponded l2 w1 s1).
Proof.
  revert w s. induction l1 as [|msg l1 IH]; intros w s; [reflexivity|].
  simpl. destruct (CheckForResponse msg); simpl; [|apply IH].
  destruct (hasRecipientResponded _ _ w) as [[[|]|e] w1]; try apply IH.
  destruct (execUpdateMessageStatus _ _ _ _ w1 s) as [[err w2] s2]. apply IH.
Qed.

(** A row after the sweep is the row before, or that row paused for an
    item of the list with its identifier and the flag set. *)
Lemma pauseResponded_rows (l : list ScheduledMessage) (w : World) s w' s' id row :
  pauseResponded l w s = (w', s') ->
  GetScheduledMessage id s = Ok row ->
  GetScheduledMessage id s' = Ok row
  \/ GetScheduledMessage id s'
     = Ok (set_status "paused" None (Some RecipientResponded) row)
     /\ exists msg, In msg l /\ ID msg = id /\ CheckForResponse msg = true.
Proof.
  revert w s row. induction l as [|msg l IH]; intros w s row.
  - intros [= _ <-] Hget. now left.
  - cbn [pauseResponded].
    assert (Hrest : forall w1 s1 row1,
      pauseResponded l w1 s1 = (w', s') ->
      GetScheduledMessage id s1 = Ok row1 ->
      GetScheduledMessage id s' = Ok row1
      \/ GetScheduledMessage id s'
         = Ok (set_status "paused" None (Some RecipientResponded) row1)
         /\ exists m,
              In m (msg :: l) /\ ID m = id /\ CheckForResponse m = true).
    { intros w1 s1 row1 Hrun Hget.
      destruct (IH _ _ _ Hrun Hget) as [Hsame | [Hp (m & Hin & Hm)]];
        [now left | right].
      split; [assumption|]. exists m. simpl. tauto. }
    destruct (CheckForResponse msg) eqn:Eflag; simpl; [|apply Hrest].
    destruct (hasRecipientResponded _ _ w) as [[[|]|e] w1] eqn:Echeck;
      try apply Hrest.
    exec_cases. intros Hrun Hget.
    destruct Eexec as [(_ & _ & ->) | (e & _ & _ & ->)];
      [|now apply (Hrest _ _ _ Hrun)].
    destruct (string_dec (ID msg) id) as [<- | Hne].
    + pose proof (GetScheduledMessage_update_same _ "paused" None
                    (Some RecipientResponded) _ _ Hget) as Hget1.
      right. split.
      * destruct (IH _ _ _ Hrun Hget1) as [Hsame | [Hp _]]; assumption.
      * exists msg. simpl. auto.
    + apply (Hrest _ _ _ Hrun).
      rewrite GetScheduledMessage_update_other by congruence. assumption.
Qed.

Lemma pauseResponded_other (l : list ScheduledMessage) (w : World) s w' s' id :
  pauseResponded l w s = (w', s') ->
  ~ In id (map ID l) ->
  GetScheduledMessage id s' = GetScheduledMessage id s.
Proof.
  revert w s. induction l as [|msg l IH]; intros w s.
  - now intros [= _ <-].
  - cbn [pauseResponded]. intros Hrun Hnotin. simpl in Hnotin.
    assert (Hl : ~ In id (map ID l)) by tauto.
    destruct (CheckForResponse msg); simpl in Hrun; [|now apply (IH _ _ Hrun)].
    destruct (hasRecipientResponded _ _ w) as [[[|]|e] w1];
      try now apply (IH _ _ Hrun).
    revert Hrun. exec_cases. intros Hrun.
    rewrite (IH _ _ Hrun Hl).
    destruct Eexec as [(_ & _ & ->) | (e & _ & _ & ->)]; [|reflexivity].
    apply GetScheduledMessage_update_other. intros ->. tauto.
Qed.

(** The sweep at one item of a list without repeated identifiers: the row
    of the item is the one before the sweep when its turn comes, and the
    rest of the sweep leaves it as its turn left it. *)
Lemma pauseResponded_at (before after : list ScheduledMessage) msg (w : World)
  s w1 s1 w2 s2 w' s' :
  NoDup (map ID (before ++ msg :: after)) ->
  pauseResponded before w s = (w1, s1) ->
  pauseResponded [msg] w1 s1 = (w2, s2) ->
  pauseResponded (before ++ msg :: after) w s = (w', s') ->
  GetScheduledMessage (ID msg) s1 = GetScheduledMessage (ID msg) s
  /\ GetScheduledMessage (ID msg) s' = GetScheduledMessage (ID msg) s2.
Proof.
  intros Hnd Hbefore Hone.
  change (before ++ msg :: after)%list
    with (before ++ [msg] ++ after)%list.
  rewrite pauseResponded_app, Hbefore, pauseResponded_app, Hone.
  intros Hafter.
  change (before ++ [msg] ++ after)%list
    with (before ++ msg :: after)%list in Hnd.
  rewrite map_app in Hnd. simpl in Hnd.
  apply NoDup_remove_2 in Hnd.
  split.
  - eapply pauseResponded_other; [eassumption|].
    intros Hin. apply Hnd, in_or_app. now left.
  - eapply pauseResponded_other; [eassumption|].
    intros Hin. apply Hnd, in_or_app. now right.
Qed.

End SweepFacts.

(** ** The engine: the two phases of a pass on a keyed table *)

Section PassFacts.
Context {World : Type} `{Collaborators World} `{Sqlite}.

Lemma pass_unfold (w : World) (s : Store) now w0 w1 s1 :
  time_Now w = (now, w0) ->
  checkAndPauseFutureMessages now w0 s = (w1, s1) ->
  processScheduledMessages w s = deliver (GetPendingMessages now s1) w1 s1.
Proof. unfold processScheduledMessages. now intros -> ->. Qed.

Lemma sweep_wf now (w : World) s w' s' :
  checkAndPauseFutureMessages now w s = (w', s') -> wf_store s -> wf_store s'.
Proof.
  unfold checkAndPauseFutureMessages, wf_store. intros Hrun.
  now rewrite (pauseResponded_ids _ _ _ _ _ Hrun).
Qed.

(** The sweep pauses pending items with the flag set, and nothing else. *)
Lemma sweep_step now (w : World) s w' s' id row :
  wf_store s ->
  checkAndPauseFutureMessages now w s = (w', s') ->
  GetScheduledMessage id s = Ok row ->
  GetScheduledMessage id s' = Ok row
  \/ Status row = "pending" /\ CheckForResponse row = true
     /\ GetScheduledMessage id s'
        = Ok (set_status "paused" None (Some RecipientResponded) row).
Proof.
  unfold checkAndPauseFutureMessages. intros Hwf Hrun Hget.
  destruct (pauseResponded_rows _ _ _ _ _ _ _ Hrun Hget)
    as [Hsame | (Hp & msg & Hin & Hid & Hflag)]; [now left|].
  right. apply GetAllPending_In in Hin as [Hin Hst].
  pose proof (In_GetScheduledMessage _ _ Hwf Hin) as Hmsg.
  rewrite Hid, Hget in Hmsg. injection Hmsg as ->. auto.
Qed.

Lemma deliver_wf (l : list ScheduledMessage) (w : World) s w' s' calls :
  deliver l w s = (w', s', calls) -> wf_store s -> wf_store s'.
Proof.
  unfold wf_store. intros Hrun. now rewrite (deliver_ids _ _ _ _ _ _ Hrun).
Qed.

(** Delivery leaves the rows the due query does not return alone and does
    not send them; a row it returns is left or gets one of the three
    updates of the pass. *)
Lemma deliver_step now (w : World) s w' s' calls id row :
  wf_store s ->
  deliver (GetPendingMessages now s) w s = (w', s', calls) ->
  GetScheduledMessage id s = Ok row ->
  (is_due now row = false ->
   GetScheduledMessage id s' = Ok row /\ no_call_for id calls)
  /\ (GetScheduledMessage id s' = Ok row
      \/ Status row = "pending"
         /\ exists st sa em,
              pass_update st sa em
              /\ GetScheduledMessage id s' = Ok (set_status st sa em row)).
Proof.
  intros Hwf Hrun Hget.
  assert (Hlisted : In id (map ID (GetPendingMessages now s)) ->
                    is_due now row = true).
  { intros Hin'. apply in_map_iff in Hin' as (m & Hm & Hin').
    apply GetPendingMessages_In in Hin' as (Hin' & Hst & Htime).
    pose proof (In_GetScheduledMessage _ _ Hwf Hin') as Hlook.
    rewrite Hm, Hget in Hlook. injection Hlook as ->.
    unfold is_due. now rewrite Hst, Htime. }
  split.
  - intros Hdue.
    destruct (deliver_other _ _ _ _ _ _ id Hrun) as [Hsame Hcalls].
    + intros Hin'. apply Hlisted in Hin'. congruence.
    + split; congruence.
  - destruct (deliver_rows _ _ _ _ _ _ _ _ Hrun Hget)
      as [Hsame | [Hin' Hup]]; [now left | right].
    split; [|assumption].
    apply Hlisted in Hin'. unfold is_due in Hin'.
    apply andb_true_iff in Hin' as [Hst _]. now apply String.eqb_eq.
Qed.

(** What [ScheduleMessage] does to the table: nothing, or one insert. *)
Lemma ScheduleMessage_store recipient message scheduledTime checkForResponse
  (w : World) s r w' s' :
  ScheduleMessage recipient message scheduledTime checkForResponse w s
  = (r, w', s') ->
  s' = s
  \/ exists msg,
       r = Ok msg /\ Status msg = "pending" /\ SentAt msg = None
       /\ ErrorMessage msg = None /\ ScheduledTime msg = scheduledTime
       /\ instant (fst (time_Now w)) <= instant scheduledTime
       /\ InsertScheduledMessage msg s = Ok s'.
Proof.
  unfold ScheduleMessage.
  destruct (time_Now w) as [now w1]. simpl.
  destruct (Before scheduledTime now) eqn:Elt; [intros [= _ _ <-]; now left|].
  destruct (getLastMessageTime _ w1) as [last w2].
  destruct (uuid_New w2) as [id w3].
  destruct (time_Now w3) as [createdAt w4].
  destruct (execInsertScheduledMessage _ w4 s) as [[err w5] s5] eqn:Eins.
  apply execInsertScheduledMessage_store in Eins
    as [(-> & _ & Hins) | (e & -> & -> & _)];
    intros [= <- _ <-]; [right | now left].
  eexists. split; [reflexivity|]. simpl.
  unfold Before in Elt. apply Z.ltb_ge in Elt.
  repeat split; auto.
Qed.

(** A pass neither touches nor sends an item that is not pending. *)
Lemma pass_skips_settled (w : World) s w' s' calls id row :
  wf_store s ->
  GetScheduledMessage id s = Ok row ->
  Status row <> "pending" ->
  processScheduledMessages w s = (w', s', calls) ->
  GetScheduledMessage id s' = Ok row /\ no_call_for id calls.
Proof.
  unfold processScheduledMessages. intros Hwf Hget Hst.
  destruct (time_Now w) as [now w0].
  destruct (checkAndPauseFutureMessages now w0 s) as [w1 s1] eqn:Esweep.
  intros Hrun.
  pose proof (sweep_wf _ _ _ _ _ Esweep Hwf) as Hwf1.
  destruct (sweep_step _ _ _ _ _ _ _ Hwf Esweep Hget)
    as [Hsame | (Hpending & _)]; [|contradiction].
  destruct (deliver_step _ _ _ _ _ _ _ _ Hwf1 Hrun Hsame) as [Hnot _].
  apply Hnot. unfold is_due. apply String.eqb_neq in Hst. now rewrite Hst.
Qed.

Lemma pass_wf (w : World) s w' s' calls :
  wf_store s -> processScheduledMessages w s = (w', s', calls) -> wf_store s'.
Proof.
  unfold processScheduledMessages. intros Hwf.
  destruct (time_Now w) as [now w0].
  destruct (checkAndPauseFutureMessages now w0 s) as [w1 s1] eqn:Esweep.
  intros Hrun. eapply deliver_wf; [eassumption|].
  eapply sweep_wf; eassumption.
Qed.

End PassFacts.

(** ** The item state machine *)

Section StateMachine.
Context {World : Type} `{Collaborators World} `{Sqlite}.

Lemma edge_terminal (to : string) :
  edge "sent" to = false /\ edge "cancelled" to = false
  /\ edge "failed" to = false.
Proof. repeat split; reflexivity. Qed.

Lemma pass_update_edge st sa em :
  pass_update st sa em -> edge "pending" st = true.
Proof. destruct 1; reflexivity. Qed.

Lemma is_due_pending now row : is_due now row = true -> Status row = "pending".
Proof.
  unfold is_due. intros Hdue. apply andb_true_iff in Hdue as [Hst _].
  now apply String.eqb_eq.
Qed.

Lemma follows_edges_sweep now (w : World) s w' s' :
  wf_store s ->
  checkAndPauseFutureMessages now w s = (w', s') -> follows_edges s s'.
Proof.
  intros Hwf Hrun id row Hget.
  destruct (sweep_step _ _ _ _ _ _ _ Hwf Hrun Hget)
    as [Hsame | (Hst & _ & Hp)].
  - exists row. auto.
  - eexists. split; [exact Hp|]. right. simpl. now rewrite Hst.
Qed.

Lemma follows_edges_deliver now (w : World) s w' s' calls :
  wf_store s ->
  deliver (GetPendingMessages now s) w s = (w', s', calls) ->
  follows_edges s s'.
Proof.
  intros Hwf Hrun id row Hget.
  destruct (deliver_step _ _ _ _ _ _ _ _ Hwf Hrun Hget)
    as [_ [Hsame | (Hst & st & sa & em & Hup & Hrow)]].
  - exists row. auto.
  - eexists. split; [exact Hrow|]. right. simpl.
    rewrite Hst. eapply pass_update_edge; eassumption.
Qed.

Lemma follows_edges_pass (w : World) s w' s' calls :
  wf_store s ->
  processScheduledMessages w s = (w', s', calls) -> follows_edges s s'.
Proof.
  unfold processScheduledMessages. intros Hwf.
  destruct (time_Now w) as [now w0].
  destruct (checkAndPauseFutureMessages now w0 s) as [w1 s1] eqn:Esweep.
  intros Hrun id row Hget.
  pose proof (sweep_wf _ _ _ _ _ Esweep Hwf) as Hwf1.
  destruct (sweep_step _ _ _ _ _ _ _ Hwf Esweep Hget)
    as [Hsame | (Hst & _ & Hp)].
  - destruct (follows_edges_deliver _ _ _ _ _ _ Hwf1 Hrun id row Hsame)
      as (row' & Hrow' & Hedge).
    exists row'. auto.
  - destruct (deliver_step _ _ _ _ _ _ _ _ Hwf1 Hrun Hp) as [Hnot _].
    destruct Hnot as [Hrow _]; [reflexivity|].
    eexists. split; [exact Hrow|]. right. simpl. now rewrite Hst.
Qed.

Lemma follows_edges_schedule recipient message scheduledTime checkForResponse
  (w : World) s r w' s' :
  ScheduleMessage recipient message scheduledTime checkForResponse w s
  = (r, w', s') ->
  follows_edges s s'.
Proof.
  intros Hrun id row Hget. exists row. split; [|now left].
  destruct (ScheduleMessage_store _ _ _ _ _ _ _ _ _ Hrun)
    as [-> | (msg & _ & _ & _ & _ & _ & _ & Hins)]; [assumption|].
  eapply InsertScheduledMessage_keeps; eassumption.
Qed.

Lemma follows_edges_handler (r : Request) (s : Store) :
  follows_edges s (snd (handleScheduledItem r s)).
Proof.
  intros id row Hget.
  destruct (handleScheduledItem_cases r s)
    as [-> | (msg & Hmsg & Hcase)]; [exists row; auto|].
  assert (Hupd : forall st em,
            edge (Status msg) st = true ->
            exists msg',
              GetScheduledMessage id
                (UpdateMessageStatus (req_ID r) st None em s) = Ok msg'
              /\ (Status msg' = Status row
                  \/ edge (Status row) (Status msg') = true)).
  { intros st em Hedge. destruct (string_dec id (req_ID r)) as [-> | Hne].
    - rewrite Hget in Hmsg. injection Hmsg as ->.
      eexists. split; [apply GetScheduledMessage_update_same; eassumption|].
      right. exact Hedge.
    - exists row. split; [|now left].
      now rewrite GetScheduledMessage_update_other. }
  destruct Hcase as [[Hst ->] | [[Hst ->] | [Hst ->]]]; apply Hupd.
  - destruct Hst as [-> | ->]; reflexivity.
  - now rewrite Hst.
  - now rewrite Hst.
Qed.

(** C1, with the condition it needs.  On a table that respects its
    primary key, whichever operation runs with nothing else writing the
    table between its reads and its writes (scheduling a message, the
    pre-pause sweep of a pass, the delivery of the due items just read
    from the table, the whole pass, or any request to the item handler of
    the control surface, cancel, pause and resume among them), every item
    that was in the table is still there and its status is the one before
    or one edge of the state machine away from it: from [pending] to
    [sent], [paused], [cancelled] or [failed], from [paused] to [pending]
    or [cancelled], and no edge leaves [sent], [cancelled] or [failed].
    A statement that fails leaves the status. *)
Theorem status_changes_follow_edges (s : Store) :
  wf_store s ->
  (forall recipient message scheduledTime checkForResponse (w : World) r w' s',
     ScheduleMessage recipient message scheduledTime checkForResponse w s
     = (r, w', s') ->
     follows_edges s s')
  /\ (forall now (w : World) w' s',
        checkAndPauseFutureMessages now w s = (w', s') -> follows_edges s s')
  /\ (forall now (w : World) w' s' calls,
        deliver (GetPendingMessages now s) w s = (w', s', calls) ->
        follows_edges s s')
  /\ (forall (w : World) w' s' calls,
        processScheduledMessages w s = (w', s', calls) -> follows_edges s s')
  /\ (forall r : Request, follows_edges s (snd (handleScheduledItem r s)))
  /\ (forall to, edge "sent" to = false /\ edge "cancelled" to = false
                 /\ edge "failed" to = false).
Proof.
  intros Hwf. repeat split.
  - intros. eapply follows_edges_schedule; eassumption.
  - intros. eapply follows_edges_sweep; eassumption.
  - intros. eapply follows_edges_deliver; eassumption.
  - intros. eapply follows_edges_pass; eassumption.
  - intros. apply follows_edges_handler.
Qed.

End StateMachine.

(** ** Sent time and reason agree with the status *)

Section Consistency.
Context {World : Type} `{Collaborators World} `{Sqlite}.

Lemma UpdateMessageStatus_consistent id st sa em (s : Store) :
  (forall row, consistent (set_status st sa em row)) ->
  store_consistent s ->
  store_consistent (UpdateMessageStatus id st sa em s).
Proof.
  unfold store_consistent, UpdateMessageStatus. intros Hnew Hs.
  apply Forall_map. eapply Forall_impl; [|exact Hs].
  intros row Hrow. simpl. now destruct (String.eqb (ID row) id).
Qed.

Lemma pass_update_consistent st sa em row :
  pass_update st sa em -> consistent (set_status st sa em row).
Proof.
  destruct 1; unfold consistent; simpl;
    (split; [intros Hst | intros [Hst | [Hst | Hst]]]);
    try discriminate; split; (reflexivity || discriminate).
Qed.

Lemma caller_update_consistent st em row :
  (st = "cancelled" \/ st = "paused") /\ em <> None
  \/ st = "pending" ->
  consistent (set_status st None em row).
Proof.
  unfold consistent. simpl.
  intros [[[-> | ->] Hem] | ->];
    (split; [intros Hst | intros [Hst | [Hst | Hst]]]);
    try discriminate; split; (reflexivity || assumption).
Qed.

Lemma pauseResponded_consistent (l : list ScheduledMessage) (w : World) s w' s' :
  pauseResponded l w s = (w', s') -> store_consistent s -> store_consistent s'.
Proof.
  revert w s. induction l as [|msg l IH]; intros w s.
  - now intros [= _ <-].
  - cbn [pauseResponded]. destruct (CheckForResponse msg); simpl;
      [|apply IH].
    destruct (hasRecipientResponded _ _ w) as [[[|]|e] w1];
      try apply IH.
    exec_cases. intros Hrun Hs. apply (IH _ _ Hrun).
    destruct Eexec as [(_ & _ & ->) | (e & _ & _ & ->)]; [|assumption].
    apply UpdateMessageStatus_consistent; [|assumption].
    intros row. apply pass_update_consistent. constructor.
Qed.

Lemma deliver_consistent (l : list ScheduledMessage) (w : World) s w' s' calls :
  deliver l w s = (w', s', calls) -> store_consistent s -> store_consistent s'.
Proof.
  revert w s w' s' calls. induction l as [|msg l IH]; intros w s w' s' calls.
  - now intros [= _ <- _].
  - cbn [deliver].
    destruct (processSingleMessage msg w s) as [[[err w1] s1] c1] eqn:E1.
    destruct (deliver l w1 s1) as [[w2 s2] c2] eqn:E2.
    intros [= _ <- _] Hs. apply (IH _ _ _ _ _ E2).
    apply processSingleMessage_store in E1
      as [-> | (st & sa & em & Hup & ->)]; [assumption|].
    apply UpdateMessageStatus_consistent; [|assumption].
    intros row. now apply pass_update_consistent.
Qed.

Lemma InsertScheduledMessage_consistent msg s s' :
  Status msg = "pending" ->
  InsertScheduledMessage msg s = Ok s' ->
  store_consistent s -> store_consistent s'.
Proof.
  unfold InsertScheduledMessage, store_consistent. intros Hst.
  destruct (existsb _ s); [discriminate|]. intros [= <-] Hs.
  apply Forall_app. split; [assumption|]. constructor; [|constructor].
  unfold consistent. simpl. rewrite Hst.
  split; [intros Hst' | intros [Hst' | [Hst' | Hst']]]; discriminate.
Qed.

(** C8. The pairing of the optional fields with the status (a [sent] row
    has a sent time and no reason; a [failed], [paused] or [cancelled] row
    has a reason and no sent time) holds of every row after each operation
    of the engine and of the control surface, if it held of every row
    before: scheduling a message, the sweep and the delivery of a pass, the
    whole pass, and any request to the item handler (cancel, pause and
    resume among them). *)
Theorem consistent_preserved (s : Store) :
  store_consistent s ->
  (forall recipient message scheduledTime checkForResponse (w : World) r w' s',
     ScheduleMessage recipient message scheduledTime checkForResponse w s
     = (r, w', s') ->
     store_consistent s')
  /\ (forall now (w : World) w' s',
        checkAndPauseFutureMessages now w s = (w', s') -> store_consistent s')
  /\ (forall l (w : World) w' s' calls,
        deliver l w s = (w', s', calls) -> store_consistent s')
  /\ (forall (w : World) w' s' calls,
        processScheduledMessages w s = (w', s', calls) -> store_consistent s')
  /\ (forall r : Request, store_consistent (snd (handleScheduledItem r s))).
Proof.
  intros Hs. split; [|split; [|split; [|split]]].
  - intros recipient message scheduledTime checkForResponse w r w' s' Hrun.
    destruct (ScheduleMessage_store _ _ _ _ _ _ _ _ _ Hrun)
      as [-> | (msg & _ & Hst & _ & _ & _ & _ & Hins)]; [assumption|].
    eapply InsertScheduledMessage_consistent; eassumption.
  - intros now w w' s' Hrun.
    eapply pauseResponded_consistent; eassumption.
  - intros l w w' s' calls Hrun.
    eapply deliver_consistent; eassumption.
  - intros w w' s' calls. unfold processScheduledMessages.
    destruct (time_Now w) as [now w0].
    destruct (checkAndPauseFutureMessages now w0 s) as [w1 s1] eqn:Esweep.
    intros Hrun. eapply deliver_consistent; [eassumption|].
    eapply pauseResponded_consistent; eassumption.
  - intros r.
    destruct (handleScheduledItem_cases r s)
      as [-> | (msg & _ & [[_ ->] | [[_ ->] | [_ ->]]])]; [assumption| | |];
      (apply UpdateMessageStatus_consistent; [|assumption]);
      intros row; apply caller_update_consistent.
    + left. split; [now left | discriminate].
    + left. split; [now right | discriminate].
    + now right.
Qed.

End Consistency.

(** ** One evaluation pass *)

Section Pass.
Context {World : Type} `{Collaborators World} `{Sqlite}.

(** The sweep of a pass at one of the items it examines. *)
Lemma sweep_item now (w0 : World) (s : Store) before msg after
  w1 s1 w2 s2 w' s' :
  wf_store s ->
  GetAllScheduledMessages "pending" "" s = (before ++ msg :: after)%list ->
  pauseResponded before w0 s = (w1, s1) ->
  pauseResponded [msg] w1 s1 = (w2, s2) ->
  checkAndPauseFutureMessages now w0 s = (w', s') ->
  GetScheduledMessage (ID msg) s = Ok msg
  /\ GetScheduledMessage (ID msg) s1 = Ok msg
  /\ GetScheduledMessage (ID msg) s' = GetScheduledMessage (ID msg) s2.
Proof.
  intros Hwf Hlist Hbefore Hone. unfold checkAndPauseFutureMessages.
  rewrite Hlist. intros Hrun.
  assert (Hnd : NoDup (map ID (before ++ msg :: after))).
  { rewrite <- Hlist. now apply GetAllScheduledMessages_NoDup. }
  assert (Hget : GetScheduledMessage (ID msg) s = Ok msg).
  { apply In_GetScheduledMessage; [assumption|].
    apply (GetAllPending_In s msg). rewrite Hlist.
    apply in_or_app. right. now left. }
  destruct (pauseResponded_at _ _ _ _ _ _ _ _ _ _ _ Hnd Hbefore Hone Hrun)
    as [H1 H2].
  split; [assumption|]. split; [congruence | assumption].
Qed.

(** The delivery loop of a pass at one of the items of the due list. *)
Lemma pass_item (w : World) (s : Store) now w0 w1 s1 before msg after
  w2 s2 c2 err w3 s3 c3 w' s' calls :
  wf_store s ->
  time_Now w = (now, w0) ->
  checkAndPauseFutureMessages now w0 s = (w1, s1) ->
  GetPendingMessages now s1 = (before ++ msg :: after)%list ->
  deliver before w1 s1 = (w2, s2, c2) ->
  processSingleMessage msg w2 s2 = (err, w3, s3, c3) ->
  processScheduledMessages w s = (w', s', calls) ->
  GetScheduledMessage (ID msg) s2 = Ok msg
  /\ GetScheduledMessage (ID msg) s' = GetScheduledMessage (ID msg) s3
  /\ calls_for (ID msg) calls = c3.
Proof.
  intros Hwf Hnow Hsweep Hdue Hbefore Hone.
  rewrite (pass_unfold _ _ _ _ _ _ Hnow Hsweep), Hdue. intros Hrun.
  pose proof (sweep_wf _ _ _ _ _ Hsweep Hwf) as Hwf1.
  assert (Hnd : NoDup (map ID (before ++ msg :: after))).
  { rewrite <- Hdue. now apply GetPendingMessages_NoDup. }
  assert (Hget : GetScheduledMessage (ID msg) s1 = Ok msg).
  { apply In_GetScheduledMessage; [assumption|].
    apply (GetPendingMessages_In now s1 msg). rewrite Hdue.
    apply in_or_app. right. now left. }
  destruct (deliver_at _ _ _ _ _ _ _ _ _ _ _ _ _ _ _ Hnd Hbefore Hone Hrun)
    as (H1 & H2 & H3).
  split; [congruence|]. split; assumption.
Qed.

(** A check of the pass for an item, in the sweep or at delivery, answers
    yes and the update is executed: the row is the item paused, and the
    sender is not called for it. *)
Lemma pass_pauses_on_yes (w : World) (s : Store) (msg : ScheduledMessage)
  now w0 w' s' calls before after wcheck scheck wanswer wexec :
  wf_store s ->
  CheckForResponse msg = true ->
  time_Now w = (now, w0) ->
  processScheduledMessages w s = (w', s', calls) ->
  (GetAllScheduledMessages "pending" "" s = (before ++ msg :: after)%list
   /\ pauseResponded before w0 s = (wcheck, scheck)
   \/ exists w1 s1 c,
        checkAndPauseFutureMessages now w0 s = (w1, s1)
        /\ GetPendingMessages now s1 = (before ++ msg :: after)%list
        /\ deliver before w1 s1 = (wcheck, scheck, c)) ->
  hasRecipientResponded (Recipient msg) (CreatedAt msg) wcheck
  = (Ok true, wanswer) ->
  scheduler_Exec wanswer = (None, wexec) ->
  GetScheduledMessage (ID msg) s'
  = Ok (set_status "paused" None (Some RecipientResponded) msg)
  /\ no_call_for (ID msg) calls.
Proof.
  intros Hwf Hflag Hnow Hrun Hwhere Hcheck Hexec.
  destruct Hwhere as [[Hlist Hbefore] | (w1 & s1 & c & Hsweep & Hdue & Hbefore)].
  - assert (Hone : pauseResponded [msg] wcheck scheck
                   = (wexec, UpdateMessageStatus (ID msg) "paused" None
                               (Some RecipientResponded) scheck)).
    { cbn [pauseResponded]. rewrite Hflag, Hcheck. simpl.
      now rewrite (execUpdateMessageStatus_ok _ _ _ _ _ _ _ Hexec). }
    destruct (checkAndPauseFutureMessages now w0 s) as [w1 s1] eqn:Hsweep.
    destruct (sweep_item _ _ _ _ _ _ _ _ _ _ _ _ Hwf Hlist Hbefore Hone Hsweep)
      as (_ & Hget1 & Hget2).
    rewrite (GetScheduledMessage_update_same _ _ _ _ _ _ Hget1) in Hget2.
    rewrite (pass_unfold _ _ _ _ _ _ Hnow Hsweep) in Hrun.
    pose proof (sweep_wf _ _ _ _ _ Hsweep Hwf) as Hwf1.
    destruct (deliver_step _ _ _ _ _ _ _ _ Hwf1 Hrun Hget2) as [Hnot _].
    apply Hnot. reflexivity.
  - assert (Hone : processSingleMessage msg wcheck scheck
                   = (None, wexec,
                      UpdateMessageStatus (ID msg) "paused" None
                        (Some RecipientResponded) scheck, [])).
    { rewrite (processSingleMessage_responded _ _ _ _ Hflag Hcheck).
      now rewrite (execUpdateMessageStatus_ok _ _ _ _ _ _ _ Hexec). }
    destruct (pass_item _ _ _ _ _ _ _ _ _ _ _ _ _ _ _ _ _ _ _
                Hwf Hnow Hsweep Hdue Hbefore Hone Hrun)
      as (Hget & Hafter & Hcalls).
    split; [|now apply calls_for_nil].
    rewrite Hafter. now apply GetScheduledMessage_update_same.
Qed.


(** The evaluation of an item for which delivery proceeds, by the outcome
    of the call of the sender. *)
Lemma processSingleMessage_outcome msg (w wsend w3 : World) (s : Store)
  success errMsg :
  CheckForResponse msg = false /\ wsend = w
  \/ CheckForResponse msg = true
     /\ hasRecipientResponded (Recipient msg) (CreatedAt msg) w
        = (Ok false, wsend) ->
  messageSender (Recipient msg) (Message msg) "" wsend
  = ((success, errMsg), w3) ->
  processSingleMessage msg w s
  = if success
    then
      let '(t, w4) := time_Now w3 in
      let '(err, w5, s5) :=
        execUpdateMessageStatus (ID msg) "sent" (Some t) None w4 s in
      (err, w5, s5, [mkSendCall msg wsend])
    else
      let '(_, w4, s4) :=
        execUpdateMessageStatus (ID msg) "failed" None (Some errMsg) w3 s in
      (Some ("failed to send message: " ++ errMsg), w4, s4,
       [mkSendCall msg wsend]).
Proof.
  intros Hproceeds Hsend.
  rewrite (processSingleMessage_sends _ _ _ _ Hproceeds), Hsend.
  now destruct success.
Qed.

(** C3, with the conditions it needs.  For an item on the due list a
    pass reads, for which delivery proceeds (the flag is off, or the
    check made at delivery answers that the recipient has not written),
    the pass makes exactly one call of the sender, for that item.  When
    the call succeeds and the update that records it is executed, the
    row has the status [sent], as sent time the clock reading taken after
    the call, and no reason; when the call fails and the update is
    executed, the row has the status [failed], as reason the error text
    the sender returned, and no sent time; the other columns are the ones
    of the item.  When the update fails the row stays the pending row it
    was.  A pass on any table neither calls the sender for an item whose
    status is [sent] or [failed] nor changes its row. *)
Theorem due_item_is_sent_once (w : World) (s : Store)
  (msg : ScheduledMessage) now w0 w1 s1 before after w2 s2 c2
  wsend success errMsg w3 w' s' calls :
  wf_store s ->
  time_Now w = (now, w0) ->
  checkAndPauseFutureMessages now w0 s = (w1, s1) ->
  GetPendingMessages now s1 = (before ++ msg :: after)%list ->
  deliver before w1 s1 = (w2, s2, c2) ->
  CheckForResponse msg = false /\ wsend = w2
  \/ CheckForResponse msg = true
     /\ hasRecipientResponded (Recipient msg) (CreatedAt msg) w2
        = (Ok false, wsend) ->
  messageSender (Recipient msg) (Message msg) "" wsend
  = ((success, errMsg), w3) ->
  processScheduledMessages w s = (w', s', calls) ->
  calls_for (ID msg) calls = [mkSendCall msg wsend]
  /\ (success = true ->
      forall t w4 w5,
        time_Now w3 = (t, w4) ->
        (scheduler_Exec w4 = (None, w5) ->
         exists row,
           GetScheduledMessage (ID msg) s' = Ok row
           /\ Status row = "sent"
           /\ SentAt row = Some t
           /\ ErrorMessage row = None
           /\ same_item msg row)
        /\ (forall e, scheduler_Exec w4 = (Some e, w5) ->
                      GetScheduledMessage (ID msg) s' = Ok msg))
  /\ (success = false ->
      forall w4,
        (scheduler_Exec w3 = (None, w4) ->
         exists row,
           GetScheduledMessage (ID msg) s' = Ok row
           /\ Status row = "failed"
           /\ SentAt row = None
           /\ ErrorMessage row = Some errMsg
           /\ same_item msg row)
        /\ (forall e, scheduler_Exec w3 = (Some e, w4) ->
                      GetScheduledMessage (ID msg) s' = Ok msg))
  /\ (forall (wlater : World) (slater : Store) row,
        wf_store slater ->
        GetScheduledMessage (ID msg) slater = Ok row ->
        Status row = "sent" \/ Status row = "failed" ->
        no_call_for (ID msg) (snd (processScheduledMessages wlater slater))
        /\ GetScheduledMessage (ID msg)
             (snd (fst (processScheduledMessages wlater slater)))
           = Ok row).
Proof.
  intros Hwf Hnow Hsweep Hdue Hbefore Hproceeds Hsend Hrun.
  destruct (processSingleMessage msg w2 s2) as [[[err wone] sone] cone] eqn:Hone.
  destruct (pass_item _ _ _ _ _ _ _ _ _ _ _ _ _ _ _ _ _ _ _
              Hwf Hnow Hsweep Hdue Hbefore Hone Hrun)
    as (Hget & Hafter & Hcalls).
  rewrite (processSingleMessage_outcome _ _ _ _ _ _ _ Hproceeds Hsend) in Hone.
  assert (Hupdated : forall st sa em,
            exists row,
              GetScheduledMessage (ID msg)
                (UpdateMessageStatus (ID msg) st sa em s2) = Ok row
              /\ Status row = st /\ SentAt row = sa /\ ErrorMessage row = em
              /\ same_item msg row).
  { intros st sa em. now apply GetScheduledMessage_updated. }
  split; [|split; [|split]].
  - rewrite Hcalls. destruct success.
    + destruct (time_Now w3) as [t w4].
      destruct (execUpdateMessageStatus _ _ _ _ w4 s2) as [[e w5] s5].
      now injection Hone as _ _ _ <-.
    + destruct (execUpdateMessageStatus _ _ _ _ w3 s2) as [[e w5] s5].
      now injection Hone as _ _ _ <-.
  - intros -> t w4 w5 Ht. rewrite Ht in Hone. split.
    + intros Hexec.
      rewrite (execUpdateMessageStatus_ok _ _ _ _ _ _ _ Hexec) in Hone.
      injection Hone as _ _ <- _. rewrite Hafter.
      destruct (Hupdated "sent" (Some t) None) as (row & Hrow & H1 & H2 & H3 & H4).
      exists row. auto.
    + intros e Hexec.
      rewrite (execUpdateMessageStatus_fails _ _ _ _ _ _ _ _ Hexec) in Hone.
      injection Hone as _ _ <- _. now rewrite Hafter.
  - intros -> w4. split.
    + intros Hexec.
      rewrite (execUpdateMessageStatus_ok _ _ _ _ _ _ _ Hexec) in Hone.
      injection Hone as _ _ <- _. rewrite Hafter.
      destruct (Hupdated "failed" None (Some errMsg))
        as (row & Hrow & H1 & H2 & H3 & H4).
      exists row. auto.
    + intros e Hexec.
      rewrite (execUpdateMessageStatus_fails _ _ _ _ _ _ _ _ Hexec) in Hone.
      injection Hone as _ _ <- _. now rewrite Hafter.
  - intros wlater slater row Hwfl Hrow Hst.
    destruct (processScheduledMessages wlater slater) as [[wl sl] cl] eqn:Hlater.
    simpl.
    assert (Hsettled : Status row <> "pending")
      by (destruct Hst as [-> | ->]; discriminate).
    destruct (pass_skips_settled _ _ _ _ _ _ _ Hwfl Hrow Hsettled Hlater).
    auto.
Qed.


End Pass.

(** ** Scheduling a message *)

Section Schedule.
Context {World : Type} `{Collaborators World} `{Sqlite}.

(** A scheduled time before the clock reading is refused and nothing is
    written. *)
Lemma ScheduleMessage_rejects_past recipient message scheduledTime
  checkForResponse (w : World) (s : Store) :
  instant scheduledTime < instant (fst (time_Now w)) ->
  ScheduleMessage recipient message scheduledTime checkForResponse w s
  = (Err "scheduled time must be in the future", snd (time_Now w), s).
Proof.
  intros Hpast. unfold ScheduleMessage, Before.
  destruct (time_Now w) as [now w1]. simpl in *.
  apply Z.ltb_lt in Hpast. now rewrite Hpast.
Qed.

(** A scheduled time at or after the clock reading is accepted: unless
    the insert fails, the new item is pending and is the last row. *)
Lemma ScheduleMessage_accepts recipient message scheduledTime
  checkForResponse (w : World) (s : Store) r w' s' :
  instant (fst (time_Now w)) <= instant scheduledTime ->
  ScheduleMessage recipient message scheduledTime checkForResponse w s
  = (r, w', s') ->
  (exists msg,
     r = Ok msg /\ Status msg = "pending"
     /\ ScheduledTime msg = scheduledTime
     /\ Recipient msg = normalizeRecipient recipient
     /\ s' = (s ++ [msg])%list)
  \/ (exists e, r = Err ("failed to insert scheduled message: " ++ e))
     /\ s' = s.
Proof.
  intros Hfuture. unfold ScheduleMessage, Before.
  destruct (time_Now w) as [now w1]. simpl in Hfuture.
  apply Z.ltb_ge in Hfuture. rewrite Hfuture.
  destruct (getLastMessageTime _ w1) as [last w2].
  destruct (uuid_New w2) as [id w3].
  destruct (time_Now w3) as [createdAt w4].
  unfold execInsertScheduledMessage.
  destruct (scheduler_Exec w4) as [[e|] w5].
  { intros [= <- _ <-]. right. split; [eexists|]; reflexivity. }
  unfold InsertScheduledMessage. simpl.
  destruct (existsb _ s); intros [= <- _ <-].
  - right. eauto.
  - left. eexists. repeat split.
Qed.

End Schedule.

(** C4. [ScheduleMessage] compares with [Before]: a request whose
    scheduled time is exactly the clock reading is not refused.  With the
    clock at 100, scheduling for 100 on an empty table returns the new
    pending item and the table holds it. *)
Theorem ScheduleMessage_accepts_current_time :
  fst (time_Now (mkTestWorld 100)) = utc 100
  /\ exists msg,
       ScheduleMessage "5491155550000" "hello" (utc 100) false
         (mkTestWorld 100) []
       = (Ok msg, mkTestWorld 102, [msg])
       /\ Status msg = "pending"
       /\ ScheduledTime msg = utc 100.
Proof.
  split; [reflexivity|]. eexists. split; [reflexivity|].
  split; reflexivity.
Qed.

(** ** The primary key is an invariant *)

Section PrimaryKey.
Context {World : Type} `{Collaborators World} `{Sqlite}.

Lemma wf_store_empty : wf_store [].
Proof. constructor. Qed.

(** Every operation takes a keyed table to a keyed table, so [wf_store]
    holds of every table reached from the empty one. *)
Lemma wf_store_preserved (s : Store) :
  wf_store s ->
  (forall recipient message scheduledTime checkForResponse (w : World) r w' s',
     ScheduleMessage recipient message scheduledTime checkForResponse w s
     = (r, w', s') ->
     wf_store s')
  /\ (forall (w : World) w' s' calls,
        processScheduledMessages w s = (w', s', calls) -> wf_store s')
  /\ (forall r : Request, wf_store (snd (handleScheduledItem r s)))
  /\ (forall id, wf_store (DeleteScheduledMessage id s)).
Proof.
  intros Hwf. split; [|split; [|split]].
  - intros recipient message scheduledTime checkForResponse w r w' s' Hrun.
    destruct (ScheduleMessage_store _ _ _ _ _ _ _ _ _ Hrun)
      as [-> | (msg & _ & _ & _ & _ & _ & _ & Hins)]; [assumption|].
    eapply InsertScheduledMessage_wf; eassumption.
  - intros w w' s' calls Hrun. eapply pass_wf; eassumption.
  - intros r.
    destruct (handleScheduledItem_cases r s)
      as [-> | (msg & _ & [[_ ->] | [[_ ->] | [_ ->]]])]; [assumption| | |];
      now apply UpdateMessageStatus_wf.
  - intros id. unfold wf_store, DeleteScheduledMessage in *.
    induction s as [|row s IH]; simpl; [constructor|].
    inversion Hwf as [|? ? Hnotin Hwf']; subst.
    destruct (String.eqb (ID row) id); simpl; [now apply IH|].
    constructor; [|now apply IH].
    intros Hin. apply Hnotin. apply in_map_iff in Hin as (r & Heq & Hin).
    apply filter_In in Hin as [Hin _]. rewrite <- Heq. now apply in_map.
Qed.

End PrimaryKey.

(** ** The theorems at work on the small worlds *)

Lemma triple_eta {A B C : Type} (x : A * B * C) :
  x = (fst (fst x), snd (fst x), snd x).
Proof. now destruct x as [[a b] c]. Qed.

Lemma test_store_wf : wf_store test_store.
Proof.
  unfold wf_store. simpl.
  repeat (constructor; [simpl; intros Hin;
                        repeat (destruct Hin as [Hin | Hin];
                                [discriminate|]); exact Hin|]).
  constructor.
Qed.

Lemma test_pass :
  processScheduledMessages test_world test_store
  = (mkTestWorld 12,
     [set_status "paused" None (Some RecipientResponded) alice_item;
      set_status "sent" (Some (utc 11)) None bob_item;
      set_status "failed" None
        (Some "Error checking recipient response: database is locked")
        carol_item;
      set_status "failed" None (Some "not connected") dave_item],
     [mkSendCall bob_item (mkTestWorld 11);
      mkSendCall dave_item (mkTestWorld 12)]).
Proof. reflexivity. Qed.

(** A request served between the reading of the due list and its
    delivery: the pass reads [bob]'s pending item as due, the item is
    cancelled, and the delivery of the list read sends the item and marks
    it [sent], a change of status from [cancelled] that is no edge of the
    machine. *)
Lemma cancelled_item_is_sent_from_a_stale_list :
  stale_due = [bob_item]
  /\ fst (handleScheduledItem (cancel "b") [bob_item])
     = JsonSuccess "Message cancelled successfully"
  /\ map Status cancelled_store = ["cancelled"]
  /\ map Status (snd (fst stale_delivery)) = ["sent"]
  /\ called_ids (snd stale_delivery) = ["b"]
  /\ edge "cancelled" "sent" = false
  /\ ~ follows_edges cancelled_store (snd (fst stale_delivery)).
Proof.
  repeat (split; [reflexivity|]).
  intros Hedges.
  destruct (Hedges "b" _ eq_refl) as (row & Hrow & Hstatus).
  injection Hrow as <-. simpl in Hstatus.
  destruct Hstatus; discriminate.
Qed.

(** The update that records a successful call fails: the pass has called
    the sender for [bob]'s item and leaves it pending, and the next pass
    calls the sender for it again.  And an item written with another
    offset than the clock reading: at noon UTC the item scheduled for
    11:00 UTC, written as 20:00 at +09:00, is pending with the flag off,
    and the pass neither calls the sender for it nor changes its row. *)
Lemma sent_item_stays_pending_and_due_item_is_missed :
  (called_ids (snd (processScheduledMessages locked_world [bob_item])) = ["b"]
   /\ snd (fst (processScheduledMessages locked_world [bob_item]))
      = [bob_item]
   /\ Status bob_item = "pending"
   /\ called_ids
        (snd (processScheduledMessages
                (fst (fst (processScheduledMessages locked_world [bob_item])))
                (snd (fst (processScheduledMessages locked_world
                             [bob_item])))))
      = ["b"])
  /\ (In late_item offset_store
      /\ Status late_item = "pending"
      /\ CheckForResponse late_item = false
      /\ instant (ScheduledTime late_item)
         <= instant (fst (time_Now (mkTestWorld noon)))
      /\ calls_for "late"
           (snd (processScheduledMessages (mkTestWorld noon) offset_store))
         = []
      /\ GetScheduledMessage "late"
           (snd (fst (processScheduledMessages (mkTestWorld noon)
                        offset_store)))
         = Ok late_item).
Proof.
  split.
  - repeat split; reflexivity.
  - split; [simpl; tauto|]. repeat (split; [reflexivity|]).
    split; [discriminate|]. split; reflexivity.
Qed.



Lemma status_changes_follow_edges_witness :
  wf_store test_store
  /\ follows_edges test_store
       (snd (fst (processScheduledMessages test_world test_store)))
  /\ follows_edges test_store
       (snd (handleScheduledItem (cancel "a") test_store)).
Proof.
  split; [exact test_store_wf|].
  destruct (status_changes_follow_edges (World := TestWorld) test_store
              test_store_wf) as (_ & _ & _ & Hpass & Hreq & _).
  split.
  - eapply Hpass. rewrite test_pass. reflexivity.
  - apply Hreq.
Defined.



(** [bob]'s item is delivered and sent; [dave]'s item is delivered and
    the transport fails. *)
Lemma due_item_is_sent_once_witness :
  (calls_for "b" (snd (processScheduledMessages test_world test_store))
   = [mkSendCall bob_item (mkTestWorld 11)]
   /\ exists row,
        GetScheduledMessage "b"
          (snd (fst (processScheduledMessages test_world test_store)))
        = Ok row
        /\ Status row = "sent"
        /\ SentAt row = Some (utc 11)
        /\ ErrorMessage row = None
        /\ same_item bob_item row)
  /\ (calls_for "d" (snd (processScheduledMessages test_world test_store))
      = [mkSendCall dave_item (mkTestWorld 12)]
      /\ exists row,
           GetScheduledMessage "d"
             (snd (fst (processScheduledMessages test_world test_store)))
           = Ok row
           /\ Status row = "failed"
           /\ SentAt row = None
           /\ ErrorMessage row = Some "not connected"
           /\ same_item dave_item row).
Proof.
  assert (Hnow : time_Now test_world = (utc 10, mkTestWorld 11))
    by reflexivity.
  assert (Hsweep : checkAndPauseFutureMessages (utc 10) (mkTestWorld 11)
                     test_store = (mkTestWorld 11, test_swept))
    by reflexivity.
  rewrite test_pass. split.
  - assert (Hdue : GetPendingMessages (utc 10) test_swept
                   = ([] ++ bob_item :: [carol_item; dave_item])%list)
      by reflexivity.
    assert (Hbefore : deliver [] (mkTestWorld 11) test_swept
                      = (mkTestWorld 11, test_swept, []))
      by reflexivity.
    assert (Hsend : messageSender (Recipient bob_item) (Message bob_item) ""
                      (mkTestWorld 11) = ((true, ""), mkTestWorld 11))
      by reflexivity.
    destruct (due_item_is_sent_once test_world test_store bob_item
                _ _ _ _ _ _ _ _ _ _ _ _ _ _ _ _
                test_store_wf Hnow Hsweep Hdue Hbefore
                (or_introl (conj eq_refl eq_refl)) Hsend test_pass)
      as (Hcalls & Hsent & _).
    split; [exact Hcalls|].
    destruct (Hsent eq_refl (utc 11) (mkTestWorld 12) (mkTestWorld 12)
                eq_refl) as [Hrow _].
    apply Hrow. reflexivity.
  - assert (Hdue : GetPendingMessages (utc 10) test_swept
                   = ([bob_item; carol_item] ++ dave_item :: [])%list)
      by reflexivity.
    assert (Hbefore : deliver [bob_item; carol_item] (mkTestWorld 11)
                        test_swept
                      = (mkTestWorld 12,
                         snd (fst (deliver [bob_item; carol_item]
                                     (mkTestWorld 11) test_swept)),
                         [mkSendCall bob_item (mkTestWorld 11)]))
      by reflexivity.
    assert (Hcheck : hasRecipientResponded (Recipient dave_item)
                       (CreatedAt dave_item) (mkTestWorld 12)
                     = (Ok false, mkTestWorld 12))
      by reflexivity.
    assert (Hsend : messageSender (Recipient dave_item) (Message dave_item)
                      "" (mkTestWorld 12)
                    = ((false, "not connected"), mkTestWorld 12))
      by reflexivity.
    destruct (due_item_is_sent_once test_world test_store dave_item
                _ _ _ _ _ _ _ _ _ _ _ _ _ _ _ _
                test_store_wf Hnow Hsweep Hdue Hbefore
                (or_intror (conj eq_refl Hcheck)) Hsend test_pass)
      as (Hcalls & _ & Hfailed & _).
    split; [exact Hcalls|].
    destruct (Hfailed eq_refl (mkTestWorld 12)) as [Hrow _].
    apply Hrow. reflexivity.
Defined.




Lemma consistent_preserved_witness :
  store_consistent test_store
  /\ store_consistent
       (snd (fst (processScheduledMessages test_world test_store))).
Proof.
  assert (Hs : store_consistent test_store).
  { unfold store_consistent, consistent.
    repeat (constructor;
            [simpl; split; [discriminate|];
             intros [Hst | [Hst | Hst]]; discriminate|]).
    constructor. }
  split; [exact Hs|].
  destruct (consistent_preserved (World := TestWorld) test_store Hs)
    as (_ & _ & _ & Hpass & _).
  eapply Hpass. rewrite test_pass. reflexivity.
Defined.

Lemma UpdateMessageStatus_frame_witness :
  nth_error test_store 1 = Some bob_item
  /\ exists row',
       nth_error
         (UpdateMessageStatus "b" "sent" (Some (utc 7)) None test_store) 1
       = Some row'
       /\ Recipient row' = Recipient bob_item
       /\ Status row' = "sent".
Proof.
  split; [reflexivity|].
  destruct (UpdateMessageStatus_frame "b" "sent" (Some (utc 7)) None
              test_store) as [_ Hrows].
  destruct (Hrows 1%nat bob_item eq_refl)
    as (row' & Hnth & _ & Hrecipient & _ & _ & _ & _ & _ & Hset & _).
  exists row'. split; [exact Hnth|]. split; [exact Hrecipient|].
  apply Hset. reflexivity.
Defined.

Lemma contains_refines_substring_witness :
  "@" <> ""
  /\ (contains "user@host" "@" = Some true <-> Substring "@" "user@host")
  /\ normalizeRecipient "5491155550000" = "5491155550000@s.whatsapp.net".
Proof.
  assert (Hne : "@" <> "") by discriminate.
  split; [exact Hne|].
  destruct contains_refines_substring as [Hcontains Hnormalize].
  split.
  - apply (Hcontains "user@host" "@" Hne).
  - apply (Hnormalize "5491155550000"). simpl.
    intros Hin.
    repeat (destruct Hin as [Hin | Hin]; [discriminate|]). exact Hin.
Defined.

(** * Further properties of the package *)

(** ** Strings: every input of [contains], and normalisation *)

Section MoreStrings.

(** [contains] answers for every pair of strings.  It finds a pattern
    exactly when the pattern is not empty and is a factor of the string:
    the empty pattern is never found, although it is a factor of every
    string, and nothing is found in the empty string. *)
Theorem contains_answer (s substr : string) :
  (contains s substr = Some true <-> substr <> "" /\ Substring substr s)
  /\ (contains s substr = Some false <-> substr = "" \/ ~ Substring substr s)
  /\ contains s "" = Some false
  /\ contains "" substr = Some false.
Proof.
  assert (Hempty : contains "" substr = Some false) by reflexivity.
  destruct (string_dec substr "") as [-> | Hne].
  - rewrite contains_empty_pattern. repeat split; auto; try discriminate.
    intros [Hne _]. now contradiction Hne.
  - destruct (contains_spec s substr Hne) as (b & Hb & [Hto Hfrom]).
    rewrite Hb. split; [|split; [|split]].
    + split.
      * intros [= ->]. auto.
      * intros [_ Hin]. now rewrite Hfrom.
    + split.
      * intros [= ->]. right. intros Hin. specialize (Hfrom Hin). discriminate.
      * intros [Heq | Hnot]; [contradiction|].
        destruct b; [|reflexivity]. exfalso. auto.
    + apply contains_empty_pattern.
    + exact Hempty.
Qed.

Lemma normalizeRecipient_with_at (recipient : string) :
  Substring "@" recipient -> normalizeRecipient recipient = recipient.
Proof.
  intros Hin. unfold normalizeRecipient.
  destruct (contains_spec recipient "@" ltac:(discriminate))
    as (b & Hb & [_ Hfrom]).
  rewrite Hb, (Hfrom Hin). reflexivity.
Qed.

Lemma normalizeRecipient_has_at (recipient : string) :
  Substring "@" (normalizeRecipient recipient).
Proof.
  unfold normalizeRecipient.
  destruct (contains_spec recipient "@" ltac:(discriminate))
    as (b & Hb & [Hto _]).
  rewrite Hb. destruct b; [now apply Hto|].
  exists recipient, "s.whatsapp.net". reflexivity.
Qed.

(** Normalising a recipient twice is normalising it once; the result
    always holds an ["@"], and is the recipient itself or the recipient
    followed by ["@s.whatsapp.net"]. *)
Theorem normalizeRecipient_idempotent (recipient : string) :
  normalizeRecipient (normalizeRecipient recipient)
  = normalizeRecipient recipient
  /\ In "@"%char (list_ascii_of_string (normalizeRecipient recipient))
  /\ (normalizeRecipient recipient = recipient
      \/ normalizeRecipient recipient = recipient ++ "@s.whatsapp.net").
Proof.
  split; [|split].
  - apply normalizeRecipient_with_at, normalizeRecipient_has_at.
  - apply Substring_char, normalizeRecipient_has_at.
  - unfold normalizeRecipient. destruct (contains recipient "@") as [[|]|]; auto.
Qed.

End MoreStrings.

(** ** The persistence layer: insert, lookup, update, delete *)

Section MoreStore.

Lemma GetScheduledMessage_found (id : string) (s : Store) :
  In id (map ID s) -> exists row, GetScheduledMessage id s = Ok row.
Proof.
  unfold GetScheduledMessage. intros Hin.
  destruct (find _ s) as [row|] eqn:Hfind; [eauto|].
  apply in_map_iff in Hin as (row & <- & Hin).
  apply (find_none _ _ Hfind) in Hin. now rewrite String.eqb_refl in Hin.
Qed.

Lemma GetScheduledMessage_absent (id : string) (s : Store) :
  ~ In id (map ID s) ->
  GetScheduledMessage id s = Err "scheduled message not found".
Proof.
  unfold GetScheduledMessage. intros Hnotin.
  destruct (find _ s) as [row|] eqn:Hfind; [|reflexivity].
  apply find_some in Hfind as [Hin Heq]. apply String.eqb_eq in Heq.
  exfalso. apply Hnotin. rewrite <- Heq. now apply in_map.
Qed.

Lemma GetScheduledMessage_app_old (id : string) (s extra : Store) row :
  GetScheduledMessage id s = Ok row ->
  GetScheduledMessage id (s ++ extra)%list = Ok row.
Proof.
  unfold GetScheduledMessage.
  induction s as [|r s IH]; simpl; [discriminate|].
  destruct (String.eqb (ID r) id); [tauto | exact IH].
Qed.

Lemma GetScheduledMessage_app_new (id : string) (s extra : Store) :
  ~ In id (map ID s) ->
  GetScheduledMessage id (s ++ extra)%list = GetScheduledMessage id extra.
Proof.
  unfold GetScheduledMessage.
  induction s as [|r s IH]; simpl; [reflexivity|]. intros Hnotin.
  destruct (String.eqb (ID r) id) eqn:E.
  - apply String.eqb_eq in E. tauto.
  - apply IH. tauto.
Qed.

Lemma existsb_ID (id : string) (s : Store) :
  existsb (fun row => String.eqb (ID row) id) s = true <-> In id (map ID s).
Proof.
  rewrite existsb_exists, in_map_iff. split.
  - intros (row & Hin & Heq). apply String.eqb_eq in Heq. eauto.
  - intros (row & Heq & Hin). exists row. split; [assumption|].
    now apply String.eqb_eq.
Qed.

(** A lookup answers with a row exactly for the identifiers of the table;
    the row has the identifier asked for, and any other answer is the
    error ["scheduled message not found"]. *)
Theorem GetScheduledMessage_found_iff (id : string) (s : Store) :
  ((exists row, GetScheduledMessage id s = Ok row) <-> In id (map ID s))
  /\ (forall row, GetScheduledMessage id s = Ok row -> ID row = id /\ In row s)
  /\ (forall e, GetScheduledMessage id s = Err e ->
                e = "scheduled message not found")
  /\ GetScheduledMessage id [] = Err "scheduled message not found".
Proof.
  split; [|split; [|split]].
  - split.
    + intros [row Hget]. apply GetScheduledMessage_In in Hget as [Hin <-].
      now apply in_map.
    + apply GetScheduledMessage_found.
  - intros row Hget. apply GetScheduledMessage_In in Hget. tauto.
  - unfold GetScheduledMessage. intros e.
    destruct (find _ s); [discriminate | now intros [= <-]].
  - reflexivity.
Qed.

(** An insert that succeeds was made under a new identifier; a lookup of
    that identifier then returns the message with no sent time and no
    error message, whatever these fields held in the message passed (the
    statement writes eight columns); every other lookup answers as before
    and the table has one more row, the last. *)
Theorem insert_lookup_roundtrip (msg : ScheduledMessage) (s s' : Store) :
  InsertScheduledMessage msg s = Ok s' ->
  GetScheduledMessage (ID msg) s = Err "scheduled message not found"
  /\ GetScheduledMessage (ID msg) s'
     = Ok (set_status (Status msg) None None msg)
  /\ (forall id, id <> ID msg ->
        GetScheduledMessage id s' = GetScheduledMessage id s)
  /\ s' = (s ++ [set_status (Status msg) None None msg])%list.
Proof.
  unfold InsertScheduledMessage.
  destruct (existsb _ s) eqn:E; [discriminate|]. intros [= <-].
  assert (Hnotin : ~ In (ID msg) (map ID s)).
  { intros Hin. apply existsb_ID in Hin. congruence. }
  split; [now apply GetScheduledMessage_absent|].
  split; [|split; [|reflexivity]].
  - rewrite GetScheduledMessage_app_new by assumption.
    unfold GetScheduledMessage. simpl. now rewrite String.eqb_refl.
  - intros id Hne.
    destruct (in_dec string_dec id (map ID s)) as [Hin | Hout].
    + destruct (GetScheduledMessage_found _ _ Hin) as [row Hrow].
      rewrite Hrow. now apply GetScheduledMessage_app_old.
    + rewrite GetScheduledMessage_app_new by assumption.
      rewrite (GetScheduledMessage_absent _ _ Hout).
      unfold GetScheduledMessage. simpl.
      destruct (String.eqb (ID msg) id) eqn:E'; [|reflexivity].
      apply String.eqb_eq in E'. congruence.
Qed.

(** After a delete the identifier is not found; every other lookup
    answers as before; deleting an identifier that is not in the table
    changes nothing, so a second delete changes nothing. *)
Theorem delete_then_lookup (id : string) (s : Store) :
  GetScheduledMessage id (DeleteScheduledMessage id s)
  = Err "scheduled message not found"
  /\ (forall id', id' <> id ->
        GetScheduledMessage id' (DeleteScheduledMessage id s)
        = GetScheduledMessage id' s)
  /\ (~ In id (map ID s) -> DeleteScheduledMessage id s = s)
  /\ DeleteScheduledMessage id (DeleteScheduledMessage id s)
     = DeleteScheduledMessage id s.
Proof.
  assert (Hgone : ~ In id (map ID (DeleteScheduledMessage id s))).
  { unfold DeleteScheduledMessage. intros Hin.
    apply in_map_iff in Hin as (row & Heq & Hin).
    apply filter_In in Hin as [_ Hne]. apply negb_true_iff in Hne.
    apply String.eqb_neq in Hne. contradiction. }
  assert (Hsame : forall t : Store,
            ~ In id (map ID t) -> DeleteScheduledMessage id t = t).
  { unfold DeleteScheduledMessage. intros t.
    induction t as [|row t IH]; simpl; [reflexivity|]. intros Hnotin.
    destruct (String.eqb (ID row) id) eqn:E; simpl.
    - apply String.eqb_eq in E. tauto.
    - f_equal. apply IH. tauto. }
  split; [now apply GetScheduledMessage_absent|].
  split; [|split; [apply Hsame | now apply Hsame]].
  intros id' Hne. unfold GetScheduledMessage, DeleteScheduledMessage.
  induction s as [|row s IH]; simpl; [reflexivity|].
  destruct (String.eqb (ID row) id) eqn:E; simpl.
  - apply String.eqb_eq in E.
    assert (E' : String.eqb (ID row) id' = false)
      by (apply String.eqb_neq; congruence).
    rewrite E'. apply IH.
    intros Hin. apply Hgone. simpl. unfold DeleteScheduledMessage. simpl.
    apply String.eqb_eq in E. rewrite E. exact Hin.
  - destruct (String.eqb (ID row) id'); [reflexivity|]. apply IH.
    intros Hin. apply Hgone. unfold DeleteScheduledMessage. simpl.
    rewrite E. simpl. now right.
Qed.

Lemma UpdateMessageStatus_absent id status sentAt errorMsg (s : Store) :
  ~ In id (map ID s) -> UpdateMessageStatus id status sentAt errorMsg s = s.
Proof.
  unfold UpdateMessageStatus. induction s as [|row s IH]; simpl;
    [reflexivity|].
  intros Hnotin. destruct (String.eqb (ID row) id) eqn:E.
  - apply String.eqb_eq in E. tauto.
  - f_equal. apply IH. tauto.
Qed.

(** Updates compose: an update under an identifier that is not in the
    table changes nothing; of two updates of one identifier the second
    wins; updates of two identifiers commute. *)
Theorem updates_compose (id id' st st' : string) (sa sa' : option Time)
  (em em' : option string) (s : Store) :
  (~ In id (map ID s) -> UpdateMessageStatus id st sa em s = s)
  /\ UpdateMessageStatus id st' sa' em' (UpdateMessageStatus id st sa em s)
     = UpdateMessageStatus id st' sa' em' s
  /\ (id <> id' ->
      UpdateMessageStatus id st sa em (UpdateMessageStatus id' st' sa' em' s)
      = UpdateMessageStatus id' st' sa' em' (UpdateMessageStatus id st sa em s)).
Proof.
  split; [apply UpdateMessageStatus_absent|]. split.
  - unfold UpdateMessageStatus. rewrite map_map. apply map_ext.
    intros row. destruct (String.eqb (ID row) id) eqn:E; simpl; now rewrite E.
  - intros Hne. unfold UpdateMessageStatus. rewrite !map_map. apply map_ext.
    intros row.
    destruct (String.eqb (ID row) id) eqn:E, (String.eqb (ID row) id') eqn:E';
      simpl; rewrite ?E, ?E'; try reflexivity.
    apply String.eqb_eq in E, E'. congruence.
Qed.

End MoreStore.

(** ** The persistence layer: the list queries *)

Section MoreQueries.
Context `{Sqlite}.

(** [GetAllScheduledMessages] returns the rows that pass each filter
    given (an empty argument filters nothing), each once, in
    non-increasing order of the text stored for the scheduled time; with
    both arguments empty it returns every row of the table, each once. *)
Theorem GetAllScheduledMessages_filtered (status recipient : string)
  (s : Store) :
  (forall row,
     In row (GetAllScheduledMessages status recipient s)
     <-> In row s
         /\ (status = "" \/ Status row = status)
         /\ (recipient = "" \/ Recipient row = recipient))
  /\ Permutation (GetAllScheduledMessages status recipient s)
       (filter (matches_filters status recipient) s)
  /\ StronglySorted
       (fun a b => String.leb (time_text (ScheduledTime b))
                     (time_text (ScheduledTime a)) = true)
       (GetAllScheduledMessages status recipient s)
  /\ Permutation (GetAllScheduledMessages "" "" s) s.
Proof.
  split; [intros row; apply GetAllScheduledMessages_In|].
  split; [apply order_desc_perm|].
  split; [apply sorted_desc_text|].
  unfold GetAllScheduledMessages. rewrite order_desc_perm.
  replace (filter (matches_filters "" "") s) with s; [reflexivity|].
  induction s as [|row s IH]; simpl; [reflexivity|]. now rewrite <- IH.
Qed.

(** [GetFutureMessagesForRecipient] returns the pending rows of the
    recipient that have the response-check flag and whose stored text of
    the scheduled time is strictly after the text bound for [now], each
    once, in non-decreasing order of that text.  None of them is returned
    by [GetPendingMessages] at [now], each is among the pending rows
    listed for the recipient, and a pending row with the flag is returned
    by one of the two queries. *)
Theorem GetFutureMessagesForRecipient_spec (recipient : string) (now : Time)
  (s : Store) :
  (forall row,
     In row (GetFutureMessagesForRecipient recipient now s)
     <-> In row s /\ Recipient row = recipient /\ Status row = "pending"
         /\ String.ltb (time_text now) (time_text (ScheduledTime row)) = true
         /\ CheckForResponse row = true)
  /\ Permutation (GetFutureMessagesForRecipient recipient now s)
       (filter (is_future_for recipient now) s)
  /\ StronglySorted
       (fun a b => String.leb (time_text (ScheduledTime a))
                     (time_text (ScheduledTime b)) = true)
       (GetFutureMessagesForRecipient recipient now s)
  /\ (forall row,
        In row (GetFutureMessagesForRecipient recipient now s) ->
        ~ In row (GetPendingMessages now s)
        /\ In row (GetAllScheduledMessages "pending" recipient s))
  /\ (forall row,
        In row s -> Status row = "pending" -> CheckForResponse row = true ->
        In row (GetPendingMessages now s)
        \/ In row (GetFutureMessagesForRecipient (Recipient row) now s)).
Proof.
  split; [intros row; apply GetFutureMessagesForRecipient_In|].
  split; [apply order_asc_perm|].
  split; [apply sorted_asc_text|]. split.
  - intros row Hin.
    apply GetFutureMessagesForRecipient_In in Hin
      as (Hin & Hrec & Hst & Htime & Hflag).
    split.
    + intros Hdue. apply GetPendingMessages_In in Hdue as (_ & _ & Hle).
      apply string_ltb_not_leb in Htime. congruence.
    + apply GetAllScheduledMessages_In. auto.
  - intros row Hin Hst Hflag.
    destruct (String.leb (time_text (ScheduledTime row)) (time_text now))
      eqn:Hle.
    + left. apply GetPendingMessages_In. auto.
    + right. apply GetFutureMessagesForRecipient_In.
      apply string_ltb_not_leb in Hle. auto.
Qed.

(** [GetPendingMessages] decides on the texts stored, not on the
    instants: whatever the offsets of the times, the rows returned are
    exactly the rows whose status is [pending] and whose stored text of the
    scheduled time is at or before the text bound for [now], each once, in
    non-decreasing order of that text, and none has another status. *)
Theorem GetPendingMessages_compares_texts (now : Time) (s : Store) :
  (forall row,
     In row (GetPendingMessages now s)
     <-> In row s /\ Status row = "pending"
         /\ String.leb (time_text (ScheduledTime row)) (time_text now)
            = true)
  /\ Permutation (GetPendingMessages now s) (filter (is_due now) s)
  /\ StronglySorted
       (fun a b => String.leb (time_text (ScheduledTime a))
                     (time_text (ScheduledTime b)) = true)
       (GetPendingMessages now s)
  /\ Forall (fun row => Status row = "pending") (GetPendingMessages now s).
Proof.
  split; [intros row; apply GetPendingMessages_In|].
  split; [apply order_asc_perm|].
  split; [apply sorted_asc_text|].
  apply Forall_forall. intros row Hin.
  now apply GetPendingMessages_In in Hin.
Qed.

End MoreQueries.


(** ** The engine: the queries on the bridge's messages *)

Section MoreEngine.
Context {World : Type} `{Collaborators World}.

(** The check is made under the normalised recipient: a recipient and its
    normal form get the same answer in the same world.  The answer is yes
    exactly when the count returned is positive, and an error of the query
    is returned as it is. *)
Theorem hasRecipientResponded_normalises (recipient : string)
  (afterTime : Time) (w : World) :
  hasRecipientResponded (normalizeRecipient recipient) afterTime w
  = hasRecipientResponded recipient afterTime w
  /\ (forall count,
        fst (messages_countAfter (normalizeRecipient recipient)
               (time_Format_RFC3339 afterTime) w) = Ok count ->
        fst (hasRecipientResponded recipient afterTime w) = Ok (0 <? count))
  /\ (forall e,
        fst (messages_countAfter (normalizeRecipient recipient)
               (time_Format_RFC3339 afterTime) w) = Err e ->
        fst (hasRecipientResponded recipient afterTime w) = Err e).
Proof.
  unfold hasRecipientResponded. split; [|split].
  - now rewrite (normalizeRecipient_with_at _
                   (normalizeRecipient_has_at recipient)).
  - intros count. destruct (messages_countAfter _ _ w) as [r w1]. simpl.
    now intros ->.
  - intros e. destruct (messages_countAfter _ _ w) as [r w1]. simpl.
    now intros ->.
Qed.

End MoreEngine.

(** ** Scheduling: what is stored and what a failure leaves *)

Section MoreSchedule.
Context {World : Type} `{Collaborators World} `{Sqlite}.

Lemma existsb_ID_absent (id : string) (s : Store) e :
  GetScheduledMessage id s = Err e ->
  existsb (fun row => String.eqb (ID row) id) s = false.
Proof.
  intros Hget. destruct (existsb _ s) eqn:E; [|reflexivity].
  apply existsb_ID, GetScheduledMessage_found in E as [row Hrow]. congruence.
Qed.

(** Everything a successful [ScheduleMessage] fixes. *)
Lemma ScheduleMessage_ok recipient message scheduledTime checkForResponse
  (w : World) (s : Store) msg w' s' :
  ScheduleMessage recipient message scheduledTime checkForResponse w s
  = (Ok msg, w', s') ->
  instant (fst (time_Now w)) <= instant scheduledTime
  /\ InsertScheduledMessage msg s = Ok s'
  /\ msg = {| ID := ID msg;
              Recipient := normalizeRecipient recipient;
              Message := message;
              ScheduledTime := scheduledTime;
              CreatedAt := CreatedAt msg;
              LastMessageAt :=
                match fst (getLastMessageTime (normalizeRecipient recipient)
                             (snd (time_Now w))) with
                | Ok t => t
                | Err _ => zeroTime
                end;
              CheckForResponse := checkForResponse;
              Status := "pending";
              SentAt := None;
              ErrorMessage := None |}.
Proof.
  unfold ScheduleMessage, Before.
  destruct (time_Now w) as [now w1]. simpl.
  destruct (instant scheduledTime <? instant now) eqn:Elt; [discriminate|].
  destruct (getLastMessageTime _ w1) as [last w2]. simpl.
  destruct (uuid_New w2) as [id w3].
  destruct (time_Now w3) as [createdAt w4].
  destruct (execInsertScheduledMessage _ w4 s) as [[err w5] s5] eqn:Eins.
  apply execInsertScheduledMessage_store in Eins
    as [(-> & _ & Hins) | (e & -> & _)]; [|discriminate].
  intros [= <- _ <-]. apply Z.ltb_ge in Elt. auto.
Qed.

(** A message scheduled with success can be read back under its
    identifier, exactly as returned: the recipient normalised, the message,
    time and flag as given, pending, with no sent time and no error
    message.  Its identifier was not in the table, which now ends with it,
    and its scheduled time is not before the clock reading of the
    validation. *)
Theorem ScheduleMessage_roundtrip recipient message scheduledTime
  checkForResponse (w : World) (s : Store) msg w' s' :
  ScheduleMessage recipient message scheduledTime checkForResponse w s
  = (Ok msg, w', s') ->
  GetScheduledMessage (ID msg) s' = Ok msg
  /\ GetScheduledMessage (ID msg) s = Err "scheduled message not found"
  /\ s' = (s ++ [msg])%list
  /\ Recipient msg = normalizeRecipient recipient
  /\ Message msg = message
  /\ ScheduledTime msg = scheduledTime
  /\ CheckForResponse msg = checkForResponse
  /\ Status msg = "pending" /\ SentAt msg = None /\ ErrorMessage msg = None
  /\ instant (fst (time_Now w)) <= instant scheduledTime.
Proof.
  intros Hrun.
  destruct (ScheduleMessage_ok _ _ _ _ _ _ _ _ _ Hrun) as (Htime & Hins & Hmsg).
  assert (Hclean : set_status (Status msg) None None msg = msg)
    by (rewrite Hmsg; reflexivity).
  unfold InsertScheduledMessage in Hins.
  destruct (existsb _ s) eqn:E; [discriminate|].
  injection Hins as <-.
  assert (Hnotin : ~ In (ID msg) (map ID s)).
  { intros Hin. apply existsb_ID in Hin. congruence. }
  fold (set_status (Status msg) None None msg). rewrite Hclean.
  split.
  { rewrite GetScheduledMessage_app_new by assumption.
    unfold GetScheduledMessage. simpl. now rewrite String.eqb_refl. }
  split; [now apply GetScheduledMessage_absent|].
  split; [reflexivity|].
  rewrite Hmsg. simpl. repeat split; auto.
Qed.

(** What [ScheduleMessage] does once the time is accepted. *)
Lemma ScheduleMessage_accepted recipient message scheduledTime
  checkForResponse (w : World) (s : Store) :
  instant (fst (time_Now w)) <= instant scheduledTime ->
  exists msg,
    ID msg = insert_id recipient w
    /\ LastMessageAt msg
       = match fst (getLastMessageTime (normalizeRecipient recipient)
                      (snd (time_Now w))) with
         | Ok t => t
         | Err _ => zeroTime
         end
    /\ ScheduleMessage recipient message scheduledTime checkForResponse w s
       = (let '(err, w5, s5) :=
            execInsertScheduledMessage msg (insert_world recipient w) s in
          match err with
          | Some e => (Err ("failed to insert scheduled message: " ++ e),
                       w5, s5)
          | None => (Ok msg, w5, s5)
          end).
Proof.
  unfold ScheduleMessage, Before, insert_world, insert_id.
  destruct (time_Now w) as [now w1]. simpl. intros Hle.
  apply Z.ltb_ge in Hle. rewrite Hle.
  destruct (getLastMessageTime _ w1) as [last w2]. simpl.
  destruct (uuid_New w2) as [id w3]. simpl.
  destruct (time_Now w3) as [createdAt w4]. simpl.
  eexists. split; [|split; [|reflexivity]]; reflexivity.
Qed.

(** A failed [ScheduleMessage] leaves the table as it was.  It fails with
    ["scheduled time must be in the future"] exactly when the scheduled
    time is before the clock reading, and otherwise with the error of the
    insert behind ["failed to insert scheduled message: "], exactly when
    the insert fails: the statement is not executed, or the identifier
    just generated is in the table already. *)
Theorem ScheduleMessage_failure recipient message scheduledTime
  checkForResponse (w : World) (s : Store) :
  (forall e w' s',
     ScheduleMessage recipient message scheduledTime checkForResponse w s
     = (Err e, w', s') ->
     s' = s
     /\ (e = "scheduled time must be in the future"
         /\ instant scheduledTime < instant (fst (time_Now w))
         \/ instant (fst (time_Now w)) <= instant scheduledTime
            /\ exists e0,
                 e = "failed to insert scheduled message: " ++ e0
                 /\ (fst (scheduler_Exec (insert_world recipient w))
                     = Some e0
                     \/ fst (scheduler_Exec (insert_world recipient w)) = None
                        /\ e0
                           = "UNIQUE constraint failed: scheduled_messages.id"
                        /\ exists row,
                             GetScheduledMessage (insert_id recipient w) s
                             = Ok row)))
  /\ (instant scheduledTime < instant (fst (time_Now w)) ->
      ScheduleMessage recipient message scheduledTime checkForResponse w s
      = (Err "scheduled time must be in the future", snd (time_Now w), s))
  /\ (forall e0 w5,
        instant (fst (time_Now w)) <= instant scheduledTime ->
        scheduler_Exec (insert_world recipient w) = (Some e0, w5) ->
        ScheduleMessage recipient message scheduledTime checkForResponse w s
        = (Err ("failed to insert scheduled message: " ++ e0), w5, s))
  /\ (forall w5 row,
        instant (fst (time_Now w)) <= instant scheduledTime ->
        scheduler_Exec (insert_world recipient w) = (None, w5) ->
        GetScheduledMessage (insert_id recipient w) s = Ok row ->
        ScheduleMessage recipient message scheduledTime checkForResponse w s
        = (Err "failed to insert scheduled message: UNIQUE constraint failed: scheduled_messages.id",
           w5, s)).
Proof.
  split; [|split; [apply ScheduleMessage_rejects_past | split]].
  - intros e w' s' Hrun.
    destruct (Z_lt_le_dec (instant scheduledTime) (instant (fst (time_Now w))))
      as [Hlt | Hle].
    + rewrite (ScheduleMessage_rejects_past _ _ _ _ _ _ Hlt) in Hrun.
      injection Hrun as <- _ <-. auto.
    + destruct (ScheduleMessage_accepted recipient message scheduledTime
                  checkForResponse w s Hle) as (msg & Hid & _ & Heq).
      rewrite Heq in Hrun.
      destruct (execInsertScheduledMessage msg (insert_world recipient w) s)
        as [[err w5] s5] eqn:Eins.
      apply execInsertScheduledMessage_store in Eins
        as [(-> & _ & _) | (e0 & -> & -> & Hwhy)]; [discriminate|].
      injection Hrun as <- _ <-. split; [reflexivity|]. right.
      split; [assumption|]. exists e0. split; [reflexivity|].
      destruct Hwhy as [Hexec | [Hexec Hins]]; [left; now rewrite Hexec|].
      right. rewrite Hexec. split; [reflexivity|].
      unfold InsertScheduledMessage in Hins.
      destruct (existsb _ s) eqn:E; [|discriminate].
      injection Hins as <-. split; [reflexivity|].
      rewrite <- Hid. apply GetScheduledMessage_found. now apply existsb_ID.
  - intros e0 w5 Hle Hexec.
    destruct (ScheduleMessage_accepted recipient message scheduledTime
                checkForResponse w s Hle) as (msg & _ & _ & ->).
    unfold execInsertScheduledMessage. now rewrite Hexec.
  - intros w5 row Hle Hexec Hrow.
    destruct (ScheduleMessage_accepted recipient message scheduledTime
                checkForResponse w s Hle) as (msg & Hid & _ & ->).
    unfold execInsertScheduledMessage, InsertScheduledMessage.
    rewrite Hexec.
    assert (Hex : existsb (fun r => String.eqb (ID r) (ID msg)) s = true).
    { apply existsb_ID. rewrite Hid.
      apply GetScheduledMessage_In in Hrow as [Hin <-]. now apply in_map. }
    now rewrite Hex.
Qed.

(** The baseline of the recipient's activity is best effort.  When the
    time is accepted, the insert is executed and the identifier is new,
    [ScheduleMessage] succeeds whatever the lookup of the recipient's last
    message does: the baseline of the item is the timestamp found when
    there is one and it parses, and the zero time when there is none, when
    the query fails or when the timestamp does not parse. *)
Theorem ScheduleMessage_baseline recipient message scheduledTime
  checkForResponse (w : World) (s : Store) w5 :
  instant (fst (time_Now w)) <= instant scheduledTime ->
  scheduler_Exec (insert_world recipient w) = (None, w5) ->
  GetScheduledMessage (insert_id recipient w) s
  = Err "scheduled message not found" ->
  exists msg,
    ScheduleMessage recipient message scheduledTime checkForResponse w s
    = (Ok msg, w5, (s ++ [msg])%list)
    /\ ID msg = insert_id recipient w
    /\ LastMessageAt msg
       = match fst (messages_lastTimestamp (normalizeRecipient recipient)
                      (snd (time_Now w))) with
         | NoRows => zeroTime
         | RowErr _ => zeroTime
         | Row timestamp =>
             match time_Parse_RFC3339 timestamp with
             | Ok t => t
             | Err _ => zeroTime
             end
         end.
Proof.
  intros Hle Hexec Hnew.
  unfold ScheduleMessage, Before, insert_world, insert_id in *.
  destruct (time_Now w) as [now w1]. simpl in *.
  apply Z.ltb_ge in Hle. rewrite Hle.
  unfold getLastMessageTime in *.
  destruct (messages_lastTimestamp _ w1) as [lookup w2]. simpl in *.
  destruct lookup as [| e | timestamp]; simpl in *;
    destruct (uuid_New w2) as [id w3]; simpl in *;
    destruct (time_Now w3) as [createdAt w4]; simpl in *;
    unfold execInsertScheduledMessage, InsertScheduledMessage;
    rewrite Hexec; simpl;
    rewrite (existsb_ID_absent _ _ _ Hnew);
    eexists; (split; [reflexivity|]; split; reflexivity).
Qed.

End MoreSchedule.

(** ** One pass: whom it calls the sender for, and what it leaves *)

Section MorePass.
Context {World : Type} `{Collaborators World} `{Sqlite}.

(** The calls the evaluation of an item makes: one, in the world the
    check left, when the flag is off or the check answers no; none when
    the check answers yes or fails. *)
Lemma processSingleMessage_call_list msg (w : World) (s : Store) :
  snd (processSingleMessage msg w s)
  = if CheckForResponse msg
    then match hasRecipientResponded (Recipient msg) (CreatedAt msg) w with
         | (Ok false, wsend) => [mkSendCall msg wsend]
         | _ => []
         end
    else [mkSendCall msg w].
Proof.
  unfold processSingleMessage.
  destruct (CheckForResponse msg).
  - destruct (hasRecipientResponded _ _ w) as [[[|]|e] w0].
    + now destruct (execUpdateMessageStatus _ _ _ _ w0 s) as [[err w1] s1].
    + destruct (messageSender _ _ _ w0) as [[[|] errMsg] w1]; simpl.
      * destruct (time_Now w1) as [now w2].
        now destruct (execUpdateMessageStatus _ _ _ _ w2 s) as [[err w3] s3].
      * now destruct (execUpdateMessageStatus _ _ _ _ w1 s) as [[err w3] s3].
    + now destruct (execUpdateMessageStatus _ _ _ _ w0 s) as [[err w1] s1].
  - destruct (messageSender _ _ _ w) as [[[|] errMsg] w1]; simpl.
    + destruct (time_Now w1) as [now w2].
      now destruct (execUpdateMessageStatus _ _ _ _ w2 s) as [[err w3] s3].
    + now destruct (execUpdateMessageStatus _ _ _ _ w1 s) as [[err w3] s3].
Qed.

(** The calls of the loop follow the list: they are made for items of the
    list, in the order of the list, at most once for each identifier. *)
Lemma deliver_calls_shape (l : list ScheduledMessage) (w : World) s w' s' calls :
  deliver l w s = (w', s', calls) ->
  Forall (fun c => In (call_msg c) l) calls
  /\ (NoDup (map ID l) -> NoDup (called_ids calls))
  /\ (forall R : ScheduledMessage -> ScheduledMessage -> Prop,
        StronglySorted R l ->
        StronglySorted (fun c c' => R (call_msg c) (call_msg c')) calls).
Proof.
  revert w s w' s' calls. induction l as [|msg l IH]; intros w s w' s' calls.
  - intros [= _ _ <-]. repeat split; intros; constructor.
  - cbn [deliver].
    destruct (processSingleMessage msg w s) as [[[err w1] s1] c1] eqn:E1.
    destruct (deliver l w1 s1) as [[w2 s2] c2] eqn:E2.
    intros [= _ _ <-].
    destruct (IH _ _ _ _ _ E2) as (Hin & Hnd & Hsorted).
    assert (Hin' : Forall (fun c => In (call_msg c) (msg :: l)) c2).
    { eapply Forall_impl; [|exact Hin]. intros c Hc. now right. }
    destruct (processSingleMessage_calls _ _ _ _ _ _ _ E1) as [-> | [w0 ->]].
    + simpl. split; [assumption|]. split.
      * intros Hl. inversion Hl; subst. auto.
      * intros R Hl. inversion Hl; subst. auto.
    + simpl. split; [constructor; simpl; auto|]. split.
      * intros Hl. inversion Hl as [|? ? Hnotin Hl']; subst.
        unfold called_ids. simpl. constructor; [|now apply Hnd].
        intros Hc. apply in_map_iff in Hc as (c & Heq & Hc).
        rewrite Forall_forall in Hin. apply Hin in Hc.
        apply Hnotin. rewrite <- Heq. now apply in_map.
      * intros R Hl. inversion Hl as [|? ? Hl' Hall]; subst.
        constructor; [now apply Hsorted|].
        rewrite Forall_forall in *. intros c Hc. simpl. auto.
Qed.

Lemma pass_phases (w : World) (s : Store) w' s' calls :
  processScheduledMessages w s = (w', s', calls) ->
  exists w1 s1,
    checkAndPauseFutureMessages (fst (time_Now w)) (snd (time_Now w)) s
    = (w1, s1)
    /\ deliver (GetPendingMessages (fst (time_Now w)) s1) w1 s1
       = (w', s', calls).
Proof.
  unfold processScheduledMessages.
  destruct (time_Now w) as [now w0]. simpl.
  destruct (checkAndPauseFutureMessages now w0 s) as [w1 s1]. eauto.
Qed.

(** A row that is pending after the sweep is a row of the table before. *)
Lemma sweep_pending_rows now (w : World) s w1 s1 row :
  wf_store s ->
  checkAndPauseFutureMessages now w s = (w1, s1) ->
  In row s1 -> Status row = "pending" -> In row s.
Proof.
  intros Hwf Hsweep Hin Hst.
  pose proof (sweep_wf _ _ _ _ _ Hsweep Hwf) as Hwf1.
  pose proof (In_GetScheduledMessage _ _ Hwf1 Hin) as Hrow1.
  assert (Hid : In (ID row) (map ID s)).
  { unfold checkAndPauseFutureMessages in Hsweep.
    rewrite <- (pauseResponded_ids _ _ _ _ _ Hsweep). now apply in_map. }
  destruct (GetScheduledMessage_found _ _ Hid) as [row0 Hrow0].
  destruct (sweep_step _ _ _ _ _ _ _ Hwf Hsweep Hrow0)
    as [Hsame | (_ & _ & Hp)].
  - rewrite Hsame in Hrow1. injection Hrow1 as <-.
    now apply GetScheduledMessage_In in Hrow0.
  - rewrite Hp in Hrow1. injection Hrow1 as <-. discriminate.
Qed.

(** A pass calls the sender only for items of the due list it read,
    which were pending rows of the table, and at most once for each
    identifier.  For the item at each place of the list it makes one
    call, in the world its check left, when the flag of the item is off
    or the check made at its turn answers that nobody responded, and no
    call when that check answers yes or fails. *)
Theorem pass_calls_due_items_once (w : World) (s : Store) now w0 w1 s1
  w' s' calls :
  wf_store s ->
  time_Now w = (now, w0) ->
  checkAndPauseFutureMessages now w0 s = (w1, s1) ->
  processScheduledMessages w s = (w', s', calls) ->
  Forall (fun c => In (call_msg c) (GetPendingMessages now s1)
                   /\ In (call_msg c) s
                   /\ Status (call_msg c) = "pending") calls
  /\ NoDup (called_ids calls)
  /\ forall before msg after w2 s2 c2,
       GetPendingMessages now s1 = (before ++ msg :: after)%list ->
       deliver before w1 s1 = (w2, s2, c2) ->
       calls_for (ID msg) calls
       = if CheckForResponse msg
         then match hasRecipientResponded (Recipient msg) (CreatedAt msg)
                      w2 with
              | (Ok false, wsend) => [mkSendCall msg wsend]
              | _ => []
              end
         else [mkSendCall msg w2].
Proof.
  intros Hwf Hnow Hsweep Hrun.
  pose proof (sweep_wf _ _ _ _ _ Hsweep Hwf) as Hwf1.
  pose proof Hrun as Hdeliver.
  rewrite (pass_unfold _ _ _ _ _ _ Hnow Hsweep) in Hdeliver.
  destruct (deliver_calls_shape _ _ _ _ _ _ Hdeliver) as (Hin & Hnodup & _).
  split; [|split].
  - eapply Forall_impl; [|exact Hin]. intros c Hc. split; [assumption|].
    apply GetPendingMessages_In in Hc as (Hin1 & Hst & _).
    split; [eapply sweep_pending_rows; eassumption | assumption].
  - apply Hnodup. now apply GetPendingMessages_NoDup.
  - intros before msg after w2 s2 c2 Hdue Hbefore.
    destruct (processSingleMessage msg w2 s2) as [[[err w3] s3] c3] eqn:Hone.
    destruct (pass_item _ _ _ _ _ _ _ _ _ _ _ _ _ _ _ _ _ _ _
                Hwf Hnow Hsweep Hdue Hbefore Hone Hrun) as (_ & _ & ->).
    rewrite <- (processSingleMessage_call_list msg w2 s2). now rewrite Hone.
Qed.

(** The sender is called in the order of the due list: in non-decreasing
    order of the stored text of the scheduled time. *)
Theorem pass_calls_in_time_order (w : World) (s : Store) w' s' calls :
  processScheduledMessages w s = (w', s', calls) ->
  StronglySorted
    (fun c c' =>
       String.leb (time_text (ScheduledTime (call_msg c)))
         (time_text (ScheduledTime (call_msg c'))) = true)
    calls.
Proof.
  intros Hrun.
  destruct (pass_phases _ _ _ _ _ Hrun) as (w1 & s1 & _ & Hdeliver).
  destruct (deliver_calls_shape _ _ _ _ _ _ Hdeliver) as (_ & _ & Hsorted).
  apply (Hsorted (fun a b => String.leb (time_text (ScheduledTime a))
                               (time_text (ScheduledTime b)) = true)).
  apply sorted_asc_text.
Qed.

End MorePass.

(** ** One pass: the rows it leaves *)

Section MorePassRows.
Context {World : Type} `{Collaborators World} `{Sqlite}.

Lemma Forall2_same_item_refl (s : Store) : Forall2 same_item s s.
Proof. induction s; constructor; auto using same_item_refl. Qed.

Lemma Forall2_same_item_trans (a b c : Store) :
  Forall2 same_item a b -> Forall2 same_item b c -> Forall2 same_item a c.
Proof.
  intros Hab. revert c. induction Hab as [|x y a b Hxy Hab IH]; intros c Hbc;
    inversion Hbc; subst; constructor; eauto using same_item_trans.
Qed.

Lemma UpdateMessageStatus_same_items id st sa em (s : Store) :
  Forall2 same_item s (UpdateMessageStatus id st sa em s).
Proof.
  unfold UpdateMessageStatus. induction s as [|row s IH]; simpl; constructor;
    [|assumption].
  destruct (String.eqb (ID row) id); repeat split.
Qed.

Lemma pauseResponded_same_items (l : list ScheduledMessage) (w : World) s w' s' :
  pauseResponded l w s = (w', s') -> Forall2 same_item s s'.
Proof.
  revert w s. induction l as [|msg l IH]; intros w s.
  - intros [= _ <-]. apply Forall2_same_item_refl.
  - cbn [pauseResponded]. destruct (CheckForResponse msg); simpl; [|apply IH].
    destruct (hasRecipientResponded _ _ w) as [[[|]|e] w1]; try apply IH.
    exec_cases. intros Hrun.
    eapply Forall2_same_item_trans; [|eapply IH; eassumption].
    destruct Eexec as [(_ & _ & ->) | (e & _ & _ & ->)];
      [apply UpdateMessageStatus_same_items | apply Forall2_same_item_refl].
Qed.

Lemma deliver_same_items (l : list ScheduledMessage) (w : World) s w' s' calls :
  deliver l w s = (w', s', calls) -> Forall2 same_item s s'.
Proof.
  revert w s w' s' calls. induction l as [|msg l IH]; intros w s w' s' calls.
  - intros [= _ <- _]. apply Forall2_same_item_refl.
  - cbn [deliver].
    destruct (processSingleMessage msg w s) as [[[err w1] s1] c1] eqn:E1.
    destruct (deliver l w1 s1) as [[w2 s2] c2] eqn:E2.
    intros [= _ <- _].
    eapply Forall2_same_item_trans; [|eapply IH; eassumption].
    apply processSingleMessage_store in E1 as [-> | (st & sa & em & _ & ->)];
      [apply Forall2_same_item_refl | apply UpdateMessageStatus_same_items].
Qed.

(** A pass neither adds, removes nor reorders rows, and writes none of
    the seven columns that identify an item: row by row, the table after
    is the table before up to status, sent time and error message. *)
Theorem pass_keeps_items (w : World) (s : Store) w' s' calls :
  processScheduledMessages w s = (w', s', calls) ->
  Forall2 same_item s s'.
Proof.
  intros Hrun.
  destruct (pass_phases _ _ _ _ _ Hrun) as (w1 & s1 & Hsweep & Hdeliver).
  eapply Forall2_same_item_trans.
  - eapply pauseResponded_same_items. exact Hsweep.
  - eapply deliver_same_items. exact Hdeliver.
Qed.

(** An item the due query does not return, its stored text of the
    scheduled time being after the text of the clock reading of the pass,
    is neither sent nor failed by the pass: the sender is not called for
    it, and its row is the one before, or, for a pending item with the
    flag set, that row paused by the sweep, with the reason of the sweep
    and no sent time. *)
Theorem pass_spares_not_due (w : World) (s : Store) w' s' calls id row :
  wf_store s ->
  GetScheduledMessage id s = Ok row ->
  String.leb (time_text (ScheduledTime row)) (time_text (fst (time_Now w)))
  = false ->
  processScheduledMessages w s = (w', s', calls) ->
  no_call_for id calls
  /\ (GetScheduledMessage id s' = Ok row
      \/ Status row = "pending" /\ CheckForResponse row = true
         /\ exists row',
              GetScheduledMessage id s' = Ok row'
              /\ Status row' = "paused"
              /\ ErrorMessage row'
                 = Some "Recipient responded before scheduled time"
              /\ SentAt row' = None
              /\ same_item row row').
Proof.
  intros Hwf Hget Hlater Hrun.
  destruct (pass_phases _ _ _ _ _ Hrun) as (w1 & s1 & Hsweep & Hdeliver).
  set (now := fst (time_Now w)) in *.
  pose proof (sweep_wf _ _ _ _ _ Hsweep Hwf) as Hwf1.
  assert (Hnotdue : forall st sa em,
            is_due now (set_status st sa em row) = false).
  { intros st sa em. unfold is_due. simpl. rewrite Hlater.
    apply andb_false_r. }
  assert (Hnotdue' : is_due now row = false).
  { unfold is_due. rewrite Hlater. apply andb_false_r. }
  destruct (sweep_step _ _ _ _ _ _ _ Hwf Hsweep Hget)
    as [Hsame | (Hst & Hflag & Hp)].
  - destruct (deliver_step _ _ _ _ _ _ _ _ Hwf1 Hdeliver Hsame) as [Hnot _].
    destruct (Hnot Hnotdue') as [Hrow Hcalls]. auto.
  - destruct (deliver_step _ _ _ _ _ _ _ _ Hwf1 Hdeliver Hp) as [Hnot _].
    destruct (Hnot (Hnotdue _ _ _)) as [Hrow Hcalls].
    split; [assumption|]. right. split; [assumption|].
    split; [assumption|]. eexists. split; [exact Hrow|].
    simpl. repeat split.
Qed.

End MorePassRows.

(** ** The worker: any number of passes *)

Section MoreWorker.
Context {World : Type} `{Collaborators World} `{Sqlite}.


(** The worker returns at the stop signal: what it receives after it has
    no effect, whatever it received before. *)
Lemma worker_stops (before after : list signal) (w : World) (s : Store) :
  worker (before ++ StopSignal :: after) w s = worker before w s.
Proof.
  revert w s. induction before as [|[|] rest IH]; intros w s; simpl.
  - reflexivity.
  - destruct (processScheduledMessages w s) as [[w1 s1] c1].
    now rewrite IH.
  - reflexivity.
Qed.

End MoreWorker.

(** ** The item handler: refusals, cancellation, pause and resume *)

Section MoreHandler.

Lemma handleScheduledItem_write (r : Request) (s : Store) :
  handleScheduledItem r s = (fst (handleScheduledItem r s), s)
  /\ (forall msg, fst (handleScheduledItem r s) <> JsonSuccess msg)
  \/ exists message st em,
       handleScheduledItem r s
       = (JsonSuccess message, UpdateMessageStatus (req_ID r) st None em s).
Proof.
  unfold handleScheduledItem, handleScheduledItemOn.
  destruct (String.eqb (req_ID r) ""); [left; split; [reflexivity | discriminate]|].
  destruct (String.eqb (req_Method r) "GET").
  { left. destruct (GetScheduledMessage _ s); split;
      try reflexivity; discriminate. }
  destruct (String.eqb (req_Method r) "DELETE").
  { destruct (GetScheduledMessage _ s) as [msg|];
      [|left; split; [reflexivity | discriminate]].
    destruct (negb _ && negb _);
      [left; split; [reflexivity | discriminate] | right; eauto]. }
  destruct (String.eqb (req_Method r) "PATCH");
    [|left; split; [reflexivity | discriminate]].
  destruct (req_Action r) as [action|];
    [|left; split; [reflexivity | discriminate]].
  destruct (GetScheduledMessage _ s) as [msg|];
    [|left; split; [reflexivity | discriminate]].
  destruct (patchTransition action msg) as [[newStatus reason]|text];
    [right; eauto | left; split; [reflexivity | discriminate]].
Qed.

(** A request that is answered with an error has written nothing: the
    table is the one before. *)
Theorem handler_error_leaves_table (r : Request) (s : Store)
  (text : string) (code : Z) :
  fst (handleScheduledItem r s) = HttpError text code ->
  snd (handleScheduledItem r s) = s.
Proof.
  intros Herr.
  destruct (handleScheduledItem_write r s)
    as [[Heq _] | (message & st & em & Heq)].
  - now rewrite Heq.
  - rewrite Heq in Herr. discriminate.
Qed.

(** No request adds, removes or reorders rows, or writes any of the seven
    columns that identify an item; in particular the DELETE method removes
    nothing. *)
Theorem handler_keeps_items (r : Request) (s : Store) :
  Forall2 same_item s (snd (handleScheduledItem r s)).
Proof.
  destruct (handleScheduledItem_write r s)
    as [[Heq _] | (message & st & em & Heq)]; rewrite Heq; simpl.
  - apply Forall2_same_item_refl.
  - apply UpdateMessageStatus_same_items.
Qed.

(** An identifier that is not in the table is answered 404 "Message not
    found" by GET, by DELETE and by PATCH with a decoded body, and the
    table is left as it is; a PATCH whose body does not decode is answered
    400 before the identifier is looked up. *)
Theorem handler_unknown_id (r : Request) (s : Store) :
  req_ID r <> "" ->
  ~ In (req_ID r) (map ID s) ->
  (req_Method r = "GET" \/ req_Method r = "DELETE"
   \/ req_Method r = "PATCH" /\ req_Action r <> None ->
   handleScheduledItem r s = (HttpError "Message not found" 404, s))
  /\ (req_Method r = "PATCH" -> req_Action r = None ->
      handleScheduledItem r s = (HttpError "Invalid request body" 400, s)).
Proof.
  intros Hid Hnotin. apply String.eqb_neq in Hid.
  pose proof (GetScheduledMessage_absent _ _ Hnotin) as Hget.
  unfold handleScheduledItem, handleScheduledItemOn. rewrite Hid, Hget. split.
  - intros [-> | [-> | [-> Hbody]]]; simpl; try reflexivity.
    destruct (req_Action r); [reflexivity | contradiction].
  - intros -> ->. reflexivity.
Qed.





End MoreHandler.

(** ** The handlers of [/api/schedule] and [/api/scheduled] *)

Section MoreScheduleHandler.
Context {World : Type} `{Collaborators World} `{Sqlite}.

(** What the handler does with a request that passes its validation. *)
Lemma handleSchedule_valid (body : option ScheduleMessageRequest)
  (req : ScheduleMessageRequest) (t : Time) (w : World) (s : Store) :
  passes_validation body req t ->
  handleSchedule "POST" body w s
  = (let '(r, w1, s1) :=
       ScheduleMessage (req_Recipient req) (req_Message req) t
         (req_CheckForResponse req) w s in
     match r with
     | Err e => (CollectionError e StatusInternalServerError, w1, s1)
     | Ok scheduledMsg =>
         (JsonScheduled "Message scheduled successfully" scheduledMsg, w1, s1)
     end).
Proof.
  intros (-> & Hr & Hm & Ht & Hparse). unfold handleSchedule. simpl.
  apply String.eqb_neq in Hr, Hm, Ht. now rewrite Hr, Hm, Ht, Hparse.
Qed.

(** What the handler does with a POST that does not pass it. *)
Lemma handleSchedule_invalid (body : option ScheduleMessageRequest)
  (w : World) (s : Store) :
  (forall req t, ~ passes_validation body req t) ->
  exists text,
    handleSchedule "POST" body w s = (CollectionError text 400, w, s).
Proof.
  intros Hinvalid. unfold handleSchedule. simpl.
  destruct body as [req|]; [|eauto].
  destruct (String.eqb (req_Recipient req) "") eqn:Er; [eauto|].
  destruct (String.eqb (req_Message req) "") eqn:Em; [eauto|].
  destruct (String.eqb (req_ScheduledTime req) "") eqn:Et; [eauto|].
  destruct (time_Parse_RFC3339 (req_ScheduledTime req)) as [t|e] eqn:Eparse;
    [|eauto].
  exfalso. apply (Hinvalid req t).
  apply String.eqb_neq in Er, Em, Et. repeat split; assumption.
Qed.

Lemma passes_validation_dec (body : option ScheduleMessageRequest) :
  (exists req t, passes_validation body req t)
  \/ (forall req t, ~ passes_validation body req t).
Proof.
  destruct body as [req|];
    [|right; intros req t (Hb & _); discriminate].
  destruct (string_dec (req_Recipient req) "") as [Er | Er].
  { right. intros req' t ([= <-] & Hr & _). contradiction. }
  destruct (string_dec (req_Message req) "") as [Em | Em].
  { right. intros req' t ([= <-] & _ & Hm & _). contradiction. }
  destruct (string_dec (req_ScheduledTime req) "") as [Et | Et].
  { right. intros req' t ([= <-] & _ & _ & Ht & _). contradiction. }
  destruct (time_Parse_RFC3339 (req_ScheduledTime req)) as [t|e] eqn:Eparse.
  - left. exists req, t. repeat split; assumption.
  - right. intros req' t ([= <-] & _ & _ & _ & Hparse). congruence.
Qed.

(** A request to [/api/schedule] that is answered with an error has
    written nothing, and the code is 405, 400 or 500: 405 exactly when
    the method is not POST; 400, with the world untouched, exactly when
    the method is POST and the request does not pass the validation of
    the handler; 500 exactly when it passes the validation and
    [ScheduleMessage] refuses it, the text being the error of
    [ScheduleMessage]. *)
Theorem handleSchedule_error_writes_nothing (method : string)
  (body : option ScheduleMessageRequest) (w : World) (s : Store) :
  (forall text code w' s',
     handleSchedule method body w s = (CollectionError text code, w', s') ->
     s' = s
     /\ (code = 405 /\ method <> "POST" /\ w' = w
         \/ code = 400 /\ method = "POST" /\ w' = w
            /\ (forall req t, ~ passes_validation body req t)
         \/ code = 500 /\ method = "POST"
            /\ exists req t,
                 passes_validation body req t
                 /\ ScheduleMessage (req_Recipient req) (req_Message req) t
                      (req_CheckForResponse req) w s
                    = (Err text, w', s)))
  /\ (method <> "POST" ->
      handleSchedule method body w s
      = (CollectionError "Method not allowed" 405, w, s))
  /\ (method = "POST" ->
      (forall req t, ~ passes_validation body req t) ->
      exists text,
        handleSchedule method body w s = (CollectionError text 400, w, s))
  /\ (forall req t text w' s',
        method = "POST" ->
        passes_validation body req t ->
        ScheduleMessage (req_Recipient req) (req_Message req) t
          (req_CheckForResponse req) w s
        = (Err text, w', s') ->
        handleSchedule method body w s = (CollectionError text 500, w', s)).
Proof.
  assert (Hfail : forall recipient message t flag text w' s',
            ScheduleMessage recipient message t flag w s = (Err text, w', s') ->
            s' = s).
  { intros recipient message t flag text w' s' Hrun.
    destruct (ScheduleMessage_store _ _ _ _ _ _ _ _ _ Hrun)
      as [-> | (msg & Hr & _)]; [reflexivity | discriminate]. }
  assert (Hnot : method <> "POST" ->
                 handleSchedule method body w s
                 = (CollectionError "Method not allowed" 405, w, s)).
  { intros Hm. unfold handleSchedule. apply String.eqb_neq in Hm.
    now rewrite Hm. }
  split; [|split; [exact Hnot | split]].
  - intros text code w' s' Hrun.
    destruct (string_dec method "POST") as [-> | Hm].
    2:{ rewrite (Hnot Hm) in Hrun. injection Hrun as <- <- <- <-.
        split; [reflexivity|]. left. auto. }
    destruct (passes_validation_dec body) as [(req & t & Hvalid) | Hinvalid].
    + rewrite (handleSchedule_valid body req t w s Hvalid) in Hrun.
      destruct (ScheduleMessage _ _ t _ w s) as [[r w1] s1] eqn:Erun.
      destruct r as [m|e]; [discriminate|].
      injection Hrun as <- <- <- <-.
      pose proof (Hfail _ _ _ _ _ _ _ Erun) as ->.
      split; [reflexivity|]. right. right.
      split; [reflexivity|]. split; [reflexivity|].
      exists req, t. split; [assumption|]. exact Erun.
    + destruct (handleSchedule_invalid body w s Hinvalid) as [text' Heq].
      rewrite Heq in Hrun. injection Hrun as <- <- <- <-.
      split; [reflexivity|]. right. left. auto.
  - intros -> Hinvalid. now apply handleSchedule_invalid.
  - intros req t text w' s' -> Hvalid Hrun.
    rewrite (handleSchedule_valid body req t w s Hvalid), Hrun.
    now rewrite (Hfail _ _ _ _ _ _ _ Hrun).
Qed.

(** A request to [/api/schedule] that succeeds was a POST with a decoded
    body whose recipient and message are not empty and whose time parses;
    the item in the answer has that time, message and flag and the
    recipient normalised, its scheduled time is not before the clock
    reading, and it can be read back from the table, which ends with
    it. *)
Theorem handleSchedule_success (method : string)
  (body : option ScheduleMessageRequest) (w : World) (s : Store)
  (message : string) (msg : ScheduledMessage) w' s' :
  handleSchedule method body w s = (JsonScheduled message msg, w', s') ->
  message = "Message scheduled successfully"
  /\ method = "POST"
  /\ (exists req,
        body = Some req
        /\ req_Recipient req <> "" /\ req_Message req <> ""
        /\ time_Parse_RFC3339 (req_ScheduledTime req)
           = Ok (ScheduledTime msg)
        /\ Recipient msg = normalizeRecipient (req_Recipient req)
        /\ Message msg = req_Message req
        /\ CheckForResponse msg = req_CheckForResponse req)
  /\ instant (fst (time_Now w)) <= instant (ScheduledTime msg)
  /\ Status msg = "pending"
  /\ GetScheduledMessage (ID msg) s' = Ok msg
  /\ s' = (s ++ [msg])%list.
Proof.
  unfold handleSchedule.
  destruct (String.eqb method "POST") eqn:Em; simpl; [|discriminate].
  apply String.eqb_eq in Em.
  destruct body as [req|]; [|discriminate].
  destruct (String.eqb (req_Recipient req) "") eqn:Er; [discriminate|].
  destruct (String.eqb (req_Message req) "") eqn:Emsg; [discriminate|].
  destruct (String.eqb (req_ScheduledTime req) ""); [discriminate|].
  destruct (time_Parse_RFC3339 (req_ScheduledTime req)) as [t|e] eqn:Eparse;
    [|discriminate].
  destruct (ScheduleMessage _ _ t _ w s) as [[r w1] s1] eqn:Erun.
  destruct r as [m|e]; [|discriminate].
  intros [= <- <- <- <-].
  destruct (ScheduleMessage_ok _ _ _ _ _ _ _ _ _ Erun) as (Htime & Hins & Hmsg).
  assert (Hfields : Recipient m = normalizeRecipient (req_Recipient req)
                    /\ Message m = req_Message req
                    /\ ScheduledTime m = t
                    /\ CheckForResponse m = req_CheckForResponse req
                    /\ Status m = "pending"
                    /\ set_status (Status m) None None m = m).
  { rewrite Hmsg. simpl. repeat split. }
  destruct Hfields as (Hrec & Hmess & Ht & Hflag & Hst & Hclean).
  unfold InsertScheduledMessage in Hins.
  destruct (existsb _ s) eqn:E; [discriminate|]. injection Hins as <-.
  fold (set_status (Status m) None None m). rewrite Hclean.
  apply String.eqb_neq in Er, Emsg. subst t.
  split; [reflexivity|]. split; [assumption|].
  split; [exists req; repeat split; assumption|].
  split; [assumption|]. split; [assumption|]. split; [|reflexivity].
  rewrite GetScheduledMessage_app_new.
  - unfold GetScheduledMessage. simpl. now rewrite String.eqb_refl.
  - intros Hin. apply existsb_ID in Hin. congruence.
Qed.

(** A well-formed request for a time before the clock reading is answered
    500, with the text of the scheduler's error, and writes nothing. *)
Theorem handleSchedule_past_time (req : ScheduleMessageRequest)
  (scheduledTime : Time) (w : World) (s : Store) :
  req_Recipient req <> "" ->
  req_Message req <> "" ->
  req_ScheduledTime req <> "" ->
  time_Parse_RFC3339 (req_ScheduledTime req) = Ok scheduledTime ->
  instant scheduledTime < instant (fst (time_Now w)) ->
  handleSchedule "POST" (Some req) w s
  = (CollectionError "scheduled time must be in the future" 500,
     snd (time_Now w), s).
Proof.
  intros Hr Hm Ht Hparse Hpast. unfold handleSchedule. simpl.
  apply String.eqb_neq in Hr, Hm, Ht. rewrite Hr, Hm, Ht, Hparse.
  now rewrite ScheduleMessage_rejects_past.
Qed.

(** The list handler returns what [GetAllScheduledMessages] returns, and
    does not normalise the recipient it filters by.  A message scheduled
    for a recipient written without ["@"] is stored under the normalised
    recipient: the list filtered by the normalised recipient has it, and so
    has the list of the pending messages, but the list filtered by the
    recipient as it was written has not. *)
Theorem list_filter_is_not_normalised recipient message scheduledTime
  checkForResponse (w : World) (s : Store) msg w' s' :
  ScheduleMessage recipient message scheduledTime checkForResponse w s
  = (Ok msg, w', s') ->
  (exists l, handleScheduledList "GET" "" (normalizeRecipient recipient) s'
             = JsonMessages l /\ In msg l)
  /\ (exists l, handleScheduledList "GET" "pending" "" s' = JsonMessages l
                /\ In msg l)
  /\ (recipient <> "" ->
      ~ In "@"%char (list_ascii_of_string recipient) ->
      exists l, handleScheduledList "GET" "" recipient s' = JsonMessages l
                /\ ~ In msg l).
Proof.
  intros Hrun.
  destruct (ScheduleMessage_ok _ _ _ _ _ _ _ _ _ Hrun) as (_ & Hins & Hmsg).
  assert (Hfields : Recipient msg = normalizeRecipient recipient
                    /\ Status msg = "pending"
                    /\ set_status (Status msg) None None msg = msg).
  { rewrite Hmsg. simpl. repeat split. }
  destruct Hfields as (Hrec & Hst & Hclean).
  assert (Hin : In msg s').
  { unfold InsertScheduledMessage in Hins.
    destruct (existsb _ s); [discriminate|]. injection Hins as <-.
    fold (set_status (Status msg) None None msg). rewrite Hclean.
    apply in_or_app. right. now left. }
  unfold handleScheduledList. simpl.
  split; [|split].
  - eexists. split; [reflexivity|].
    apply GetAllScheduledMessages_In. auto.
  - eexists. split; [reflexivity|].
    apply GetAllScheduledMessages_In. auto.
  - intros Hne Hnoat. eexists. split; [reflexivity|].
    rewrite GetAllScheduledMessages_In.
    intros (_ & _ & [Hempty | Hmatch]); [contradiction|].
    rewrite Hrec in Hmatch.
    apply Hnoat. apply Substring_char. rewrite <- Hmatch.
    apply normalizeRecipient_has_at.
Qed.

End MoreScheduleHandler.

(** ** Passes and requests together *)

Section MoreComposition.
Context {World : Type} `{Collaborators World} `{Sqlite}.

Lemma filter_none_pending (f : ScheduledMessage -> bool) (s : Store) :
  (forall row, In row s -> Status row <> "pending") ->
  (forall row, f row = true -> Status row = "pending") ->
  filter f s = [].
Proof.
  intros Hnone Hf. induction s as [|row s IH]; simpl; [reflexivity|].
  destruct (f row) eqn:E.
  - apply Hf in E. exfalso. apply (Hnone row); [now left | assumption].
  - apply IH. intros r Hr. apply Hnone. now right.
Qed.

Lemma order_asc_nil : order_asc [] = [].
Proof.
  apply Permutation_nil. symmetry. apply order_asc_perm.
Qed.

Lemma order_desc_nil : order_desc [] = [].
Proof.
  apply Permutation_nil. symmetry. apply order_desc_perm.
Qed.

(** A pass over a table without pending items (the empty table among
    them) reads the clock and does nothing else: no row changes and the
    sender is not called. *)
Theorem pass_without_pending_is_idle (w : World) (s : Store) :
  (forall row, In row s -> Status row <> "pending") ->
  processScheduledMessages w s = (snd (time_Now w), s, []).
Proof.
  intros Hnone. unfold processScheduledMessages.
  destruct (time_Now w) as [now w0]. simpl.
  unfold checkAndPauseFutureMessages, GetAllScheduledMessages,
    GetPendingMessages.
  rewrite (filter_none_pending (matches_filters "pending" "") s Hnone).
  - rewrite order_desc_nil. simpl.
    rewrite (filter_none_pending (is_due now) s Hnone).
    + now rewrite order_asc_nil.
    + intros row. apply is_due_pending.
  - intros row. unfold matches_filters. simpl. rewrite andb_true_r.
    apply String.eqb_eq.
Qed.


(** Resuming does not undo a suppression.  A paused item with the flag
    set that is resumed is pending again, with no reason; when the sweep
    of the next pass asks for it and the check answers that the recipient
    has responded, and the update is executed, the pass leaves it
    [paused] again, with the reason of the sweep and no sent time, and
    does not send it. *)
Theorem resumed_item_is_paused_again (id : string) (s : Store)
  (msg resumed : ScheduledMessage) (w : World) now w0 before after
  wcheck scheck wanswer wexec w' s' calls :
  wf_store s ->
  id <> "" ->
  GetScheduledMessage id s = Ok msg ->
  Status msg = "paused" ->
  CheckForResponse msg = true ->
  time_Now w = (now, w0) ->
  GetAllScheduledMessages "pending" ""
    (snd (handleScheduledItem (resume id) s))
  = (before ++ resumed :: after)%list ->
  ID resumed = id ->
  pauseResponded before w0 (snd (handleScheduledItem (resume id) s))
  = (wcheck, scheck) ->
  hasRecipientResponded (Recipient msg) (CreatedAt msg) wcheck
  = (Ok true, wanswer) ->
  scheduler_Exec wanswer = (None, wexec) ->
  processScheduledMessages w (snd (handleScheduledItem (resume id) s))
  = (w', s', calls) ->
  (GetScheduledMessage id (snd (handleScheduledItem (resume id) s))
   = Ok resumed
   /\ Status resumed = "pending"
   /\ ErrorMessage resumed = None
   /\ SentAt resumed = None
   /\ same_item msg resumed)
  /\ (exists row,
        GetScheduledMessage id s' = Ok row
        /\ Status row = "paused"
        /\ ErrorMessage row = Some "Recipient responded before scheduled time"
        /\ SentAt row = None
        /\ same_item msg row)
  /\ no_call_for id calls.
Proof.
  intros Hwf Hid Hget Hst Hflag Hnow.
  unfold resume. rewrite (handle_patch "resume" id s msg Hid Hget).
  unfold patchTransition. rewrite Hst. simpl.
  set (s0 := UpdateMessageStatus id "pending" None None s).
  intros Hlist Hresumed Hbefore Hcheck Hexec Hrun.
  pose proof (GetScheduledMessage_update_same id "pending" None None s msg
                Hget) as Hget0. fold s0 in Hget0.
  pose proof (UpdateMessageStatus_wf id "pending" None None s Hwf) as Hwf0.
  fold s0 in Hwf0.
  assert (Heq : resumed = set_status "pending" None None msg).
  { assert (Hin : In resumed s0).
    { apply (GetAllPending_In s0 resumed). rewrite Hlist.
      apply in_or_app. right. now left. }
    pose proof (In_GetScheduledMessage _ _ Hwf0 Hin) as Hlook.
    rewrite Hresumed, Hget0 in Hlook. now injection Hlook. }
  subst resumed.
  destruct (pass_pauses_on_yes w s0 (set_status "pending" None None msg)
              now w0 w' s' calls before after wcheck scheck wanswer wexec
              Hwf0 Hflag Hnow Hrun (or_introl (conj Hlist Hbefore))
              Hcheck Hexec) as [Hrow Hcalls].
  simpl in Hrow, Hcalls.
  destruct (GetScheduledMessage_In _ _ _ Hget) as [_ Hidm].
  rewrite Hidm in Hrow, Hcalls.
  split; [|split; [|assumption]].
  - split; [assumption|]. simpl. repeat split.
  - eexists. split; [exact Hrow|]. simpl. repeat split.
Qed.

End MoreComposition.

(** ** The further properties at work on the small worlds *)

Lemma erin_scheduled :
  ScheduleMessage "erin" "hi" (utc 1000) true parse_world []
  = (Ok erin_item, mkParseWorld 12, [erin_item]).
Proof. reflexivity. Qed.

Lemma insert_lookup_roundtrip_witness :
  InsertScheduledMessage erin_item test_store
  = Ok (test_store ++ [erin_item])%list
  /\ GetScheduledMessage "item-1" (test_store ++ [erin_item])%list
     = Ok erin_item.
Proof.
  assert (Hins : InsertScheduledMessage erin_item test_store
                 = Ok (test_store ++ [erin_item])%list) by reflexivity.
  split; [exact Hins|].
  destruct (insert_lookup_roundtrip _ _ _ Hins) as (_ & Hget & _).
  exact Hget.
Defined.


Lemma ScheduleMessage_roundtrip_witness :
  ScheduleMessage "erin" "hi" (utc 1000) true parse_world []
  = (Ok erin_item, mkParseWorld 12, [erin_item])
  /\ GetScheduledMessage "item-1" [erin_item] = Ok erin_item
  /\ Recipient erin_item = normalizeRecipient "erin".
Proof.
  split; [exact erin_scheduled|].
  destruct (ScheduleMessage_roundtrip _ _ _ _ _ _ _ _ _ erin_scheduled)
    as (Hget & _ & _ & Hrec & _).
  split; [exact Hget | exact Hrec].
Defined.

(** The three failures: a time before the clock reading, a statement that
    is not executed, an identifier that is in the table. *)
Lemma ScheduleMessage_failure_witness :
  ScheduleMessage "erin" "hi" (utc 5) true parse_world test_store
  = (Err "scheduled time must be in the future", mkParseWorld 11, test_store)
  /\ ScheduleMessage "rita" "hi" (utc 1000) true locked_world race_store
     = (Err "failed to insert scheduled message: database is locked",
        mkScriptWorld 12 [] [] [], race_store)
  /\ ScheduleMessage "erin" "hi" (utc 1000) true parse_world [erin_item]
     = (Err "failed to insert scheduled message: UNIQUE constraint failed: scheduled_messages.id",
        mkParseWorld 12, [erin_item]).
Proof.
  destruct (@ScheduleMessage_failure ParseWorld parse_collaborators "erin" "hi" (utc 5) true parse_world test_store)
    as (_ & Hpast & _).
  destruct (@ScheduleMessage_failure ScriptWorld script_collaborators "rita" "hi" (utc 1000) true locked_world race_store)
    as (_ & _ & Hexec & _).
  destruct (@ScheduleMessage_failure ParseWorld parse_collaborators "erin" "hi" (utc 1000) true parse_world [erin_item])
    as (_ & _ & _ & Hkey).
  split; [|split].
  - apply Hpast. simpl. lia.
  - apply (Hexec "database is locked" (mkScriptWorld 12 [] [] []));
      [simpl; lia | reflexivity].
  - apply (Hkey (mkParseWorld 12) erin_item); [simpl; lia | reflexivity..].
Defined.

(** The last message of [erin] has a timestamp that does not parse, the
    query about [frank] fails, [gina]'s parses: each is scheduled. *)
Lemma ScheduleMessage_baseline_witness :
  (fst (messages_lastTimestamp "erin@s.whatsapp.net" (mkParseWorld 11))
   = Row "yesterday"
   /\ exists msg,
        ScheduleMessage "erin" "hi" (utc 1000) true parse_world []
        = (Ok msg, mkParseWorld 12, [msg])
        /\ LastMessageAt msg = zeroTime)
  /\ (fst (messages_lastTimestamp "frank@s.whatsapp.net" (mkParseWorld 11))
      = RowErr "database is locked"
      /\ exists msg,
           ScheduleMessage "frank" "hi" (utc 1000) true parse_world []
           = (Ok msg, mkParseWorld 12, [msg])
           /\ LastMessageAt msg = zeroTime)
  /\ (fst (messages_lastTimestamp "gina@s.whatsapp.net" (mkParseWorld 11))
      = Row "2025-10-06T15:30:00Z"
      /\ exists msg,
           ScheduleMessage "gina" "hi" (utc 2000) true parse_world []
           = (Ok msg, mkParseWorld 12, [msg])
           /\ LastMessageAt msg = utc 1000).
Proof.
  split; [|split]; (split; [reflexivity|]).
  - destruct (@ScheduleMessage_baseline ParseWorld parse_collaborators
                "erin" "hi" (utc 1000) true parse_world []
                (mkParseWorld 12) ltac:(simpl; lia) eq_refl eq_refl)
      as (msg & Hrun & _ & Hbase).
    exists msg. split; [exact Hrun | exact Hbase].
  - destruct (@ScheduleMessage_baseline ParseWorld parse_collaborators
                "frank" "hi" (utc 1000) true parse_world []
                (mkParseWorld 12) ltac:(simpl; lia) eq_refl eq_refl)
      as (msg & Hrun & _ & Hbase).
    exists msg. split; [exact Hrun | exact Hbase].
  - destruct (@ScheduleMessage_baseline ParseWorld parse_collaborators
                "gina" "hi" (utc 2000) true parse_world []
                (mkParseWorld 12) ltac:(simpl; lia) eq_refl eq_refl)
      as (msg & Hrun & _ & Hbase).
    exists msg. split; [exact Hrun | exact Hbase].
Defined.

Lemma pass_calls_due_items_once_witness :
  called_ids (snd (processScheduledMessages test_world test_store))
  = ["b"; "d"]
  /\ NoDup (called_ids (snd (processScheduledMessages test_world test_store)))
  /\ calls_for "c" (snd (processScheduledMessages test_world test_store)) = []
  /\ calls_for "d" (snd (processScheduledMessages test_world test_store))
     = [mkSendCall dave_item (mkTestWorld 12)].
Proof.
  assert (Hnow : time_Now test_world = (utc 10, mkTestWorld 11))
    by reflexivity.
  assert (Hsweep : checkAndPauseFutureMessages (utc 10) (mkTestWorld 11)
                     test_store = (mkTestWorld 11, test_swept))
    by reflexivity.
  destruct (pass_calls_due_items_once test_world test_store _ _ _ _ _ _ _
              test_store_wf Hnow Hsweep test_pass) as (_ & Hnd & Hat).
  rewrite test_pass. split; [reflexivity|]. split; [exact Hnd|].
  assert (Hbob : deliver [bob_item] (mkTestWorld 11) test_swept
                 = (mkTestWorld 12,
                    snd (fst (deliver [bob_item] (mkTestWorld 11)
                                test_swept)),
                    [mkSendCall bob_item (mkTestWorld 11)]))
    by reflexivity.
  assert (Hcarol : deliver [bob_item; carol_item] (mkTestWorld 11) test_swept
                   = (mkTestWorld 12,
                      snd (fst (deliver [bob_item; carol_item]
                                  (mkTestWorld 11) test_swept)),
                      [mkSendCall bob_item (mkTestWorld 11)]))
    by reflexivity.
  split.
  - exact (Hat [bob_item] carol_item [dave_item] _ _ _ eq_refl Hbob).
  - exact (Hat [bob_item; carol_item] dave_item [] _ _ _ eq_refl Hcarol).
Defined.

Lemma pass_calls_in_time_order_witness :
  StronglySorted
    (fun c c' =>
       String.leb (time_text (ScheduledTime (call_msg c)))
         (time_text (ScheduledTime (call_msg c'))) = true)
    (snd (processScheduledMessages test_world test_store)).
Proof.
  rewrite test_pass. exact (pass_calls_in_time_order _ _ _ _ _ test_pass).
Defined.

Lemma pass_keeps_items_witness :
  Forall2 same_item test_store
    (snd (fst (processScheduledMessages test_world test_store))).
Proof.
  rewrite test_pass. exact (pass_keeps_items _ _ _ _ _ test_pass).
Defined.

Lemma pass_spares_not_due_witness :
  wf_store test_store
  /\ GetScheduledMessage "a" test_store = Ok alice_item
  /\ String.leb (time_text (ScheduledTime alice_item))
       (time_text (fst (time_Now test_world))) = false
  /\ no_call_for "a" (snd (processScheduledMessages test_world test_store)).
Proof.
  assert (Hlater : String.leb (time_text (ScheduledTime alice_item))
                     (time_text (fst (time_Now test_world))) = false)
    by reflexivity.
  split; [exact test_store_wf|]. split; [reflexivity|].
  split; [exact Hlater|].
  destruct (pass_spares_not_due test_world test_store _ _ _ "a" alice_item
              test_store_wf eq_refl Hlater test_pass) as [Hcalls _].
  rewrite test_pass. exact Hcalls.
Defined.

Lemma pass_without_pending_is_idle_witness :
  (forall row, In row settled_store -> Status row <> "pending")
  /\ processScheduledMessages test_world settled_store
     = (mkTestWorld 11, settled_store, []).
Proof.
  assert (Hnone : forall row, In row settled_store -> Status row <> "pending").
  { intros row [<- | [<- | []]]; discriminate. }
  split; [exact Hnone|].
  exact (pass_without_pending_is_idle test_world settled_store Hnone).
Defined.

Lemma handler_error_leaves_table_witness :
  fst (handleScheduledItem (resume "b") test_store)
  = HttpError "Can only resume paused messages" 400
  /\ snd (handleScheduledItem (resume "b") test_store) = test_store.
Proof.
  assert (Herr : fst (handleScheduledItem (resume "b") test_store)
                 = HttpError "Can only resume paused messages" 400)
    by reflexivity.
  split; [exact Herr|].
  exact (handler_error_leaves_table _ _ _ _ Herr).
Defined.

Lemma handler_unknown_id_witness :
  "zzz" <> ""
  /\ ~ In "zzz" (map ID test_store)
  /\ handleScheduledItem (cancel "zzz") test_store
     = (HttpError "Message not found" 404, test_store).
Proof.
  assert (Hid : "zzz" <> "") by discriminate.
  assert (Hnotin : ~ In "zzz" (map ID test_store)).
  { simpl. intros Hin.
    repeat (destruct Hin as [Hin | Hin]; [discriminate|]). exact Hin. }
  split; [exact Hid|]. split; [exact Hnotin|].
  destruct (handler_unknown_id (cancel "zzz") test_store Hid Hnotin)
    as [Hfound _].
  apply Hfound. right. left. reflexivity.
Defined.





(** [alice]'s item, paused by a pass, is resumed; [alice] has written,
    and the next pass pauses it again. *)
Lemma resumed_item_is_paused_again_witness :
  GetScheduledMessage "a" test_swept
  = Ok (set_status "paused" None (Some RecipientResponded) alice_item)
  /\ GetScheduledMessage "a"
       (snd (handleScheduledItem (resume "a") test_swept))
     = Ok alice_item
  /\ exists row,
       GetScheduledMessage "a"
         (snd (fst (processScheduledMessages test_world
                      (snd (handleScheduledItem (resume "a") test_swept)))))
       = Ok row
       /\ Status row = "paused"
       /\ ErrorMessage row = Some "Recipient responded before scheduled time"
       /\ SentAt row = None.
Proof.
  assert (Hwf : wf_store test_swept) by exact test_store_wf.
  assert (Hid : "a" <> "") by discriminate.
  assert (Hnow : time_Now test_world = (utc 10, mkTestWorld 11))
    by reflexivity.
  assert (Hlist : GetAllScheduledMessages "pending" ""
                    (snd (handleScheduledItem (resume "a") test_swept))
                  = ([] ++ alice_item
                        :: [dave_item; carol_item; bob_item])%list)
    by reflexivity.
  assert (Hbefore : pauseResponded [] (mkTestWorld 11)
                      (snd (handleScheduledItem (resume "a") test_swept))
                    = (mkTestWorld 11,
                       snd (handleScheduledItem (resume "a") test_swept)))
    by reflexivity.
  assert (Hcheck : hasRecipientResponded (Recipient alice_item)
                     (CreatedAt alice_item) (mkTestWorld 11)
                   = (Ok true, mkTestWorld 11))
    by reflexivity.
  assert (Hexec : scheduler_Exec (mkTestWorld 11) = (None, mkTestWorld 11))
    by reflexivity.
  split; [reflexivity|]. split; [reflexivity|].
  destruct (resumed_item_is_paused_again "a" test_swept
              (set_status "paused" None (Some RecipientResponded) alice_item)
              alice_item test_world _ _ _ _ _ _ _ _ _ _ _
              Hwf Hid eq_refl eq_refl eq_refl Hnow Hlist eq_refl Hbefore
              Hcheck Hexec (triple_eta _))
    as (_ & (row & Hrow & Hst & Hem & Hsa & _) & _).
  exists row. auto.
Defined.

(** A refused time is answered 500, a missing recipient 400, another
    method 405. *)
Lemma handleSchedule_error_writes_nothing_witness :
  handleSchedule "POST" (Some erin_request) (mkParseWorld 2000) test_store
  = (CollectionError "scheduled time must be in the future" 500,
     mkParseWorld 2001, test_store)
  /\ (exists text,
        handleSchedule "POST"
          (Some (mkScheduleMessageRequest "" "hi" "2025-10-06T15:30:00Z" true))
          (mkParseWorld 2000) test_store
        = (CollectionError text 400, mkParseWorld 2000, test_store))
  /\ handleSchedule "GET" (Some erin_request) (mkParseWorld 2000) test_store
     = (CollectionError "Method not allowed" 405, mkParseWorld 2000,
        test_store).
Proof.
  split; [|split].
  - destruct (@handleSchedule_error_writes_nothing ParseWorld
                parse_collaborators "POST" (Some erin_request)
                (mkParseWorld 2000) test_store) as (_ & _ & _ & Hrefused).
    apply (Hrefused erin_request (utc 1000)
             "scheduled time must be in the future" (mkParseWorld 2001)
             test_store eq_refl).
    + repeat split; (discriminate || reflexivity).
    + reflexivity.
  - destruct (@handleSchedule_error_writes_nothing ParseWorld
                parse_collaborators "POST"
                (Some (mkScheduleMessageRequest "" "hi"
                         "2025-10-06T15:30:00Z" true))
                (mkParseWorld 2000) test_store) as (_ & _ & Hinvalid & _).
    apply (Hinvalid eq_refl).
    intros req t ([= <-] & Hr & _). now apply Hr.
  - destruct (@handleSchedule_error_writes_nothing ParseWorld
                parse_collaborators "GET" (Some erin_request)
                (mkParseWorld 2000) test_store) as (_ & Hmethod & _).
    apply Hmethod. discriminate.
Defined.

Lemma handleSchedule_success_witness :
  handleSchedule "POST" (Some erin_request) parse_world []
  = (JsonScheduled "Message scheduled successfully" erin_item,
     mkParseWorld 12, [erin_item])
  /\ GetScheduledMessage "item-1" [erin_item] = Ok erin_item.
Proof.
  assert (Hrun : handleSchedule "POST" (Some erin_request) parse_world []
                 = (JsonScheduled "Message scheduled successfully" erin_item,
                    mkParseWorld 12, [erin_item])) by reflexivity.
  split; [exact Hrun|].
  destruct (handleSchedule_success _ _ _ _ _ _ _ _ Hrun)
    as (_ & _ & _ & _ & _ & Hget & _).
  exact Hget.
Defined.

Lemma handleSchedule_past_time_witness :
  req_Recipient erin_request <> ""
  /\ req_Message erin_request <> ""
  /\ req_ScheduledTime erin_request <> ""
  /\ @time_Parse_RFC3339 ParseWorld parse_collaborators
       (req_ScheduledTime erin_request) = Ok (utc 1000)
  /\ 1000 < instant (fst (time_Now (mkParseWorld 2000)))
  /\ handleSchedule "POST" (Some erin_request) (mkParseWorld 2000) test_store
     = (CollectionError "scheduled time must be in the future" 500,
        mkParseWorld 2001, test_store).
Proof.
  assert (H1 : req_Recipient erin_request <> "") by discriminate.
  assert (H2 : req_Message erin_request <> "") by discriminate.
  assert (H3 : req_ScheduledTime erin_request <> "") by discriminate.
  assert (H4 : instant (utc 1000) < instant (fst (time_Now (mkParseWorld 2000))))
    by (simpl; lia).
  split; [exact H1|]. split; [exact H2|]. split; [exact H3|].
  split; [reflexivity|]. split; [exact H4|].
  exact (handleSchedule_past_time erin_request (utc 1000) (mkParseWorld 2000)
           test_store H1 H2 H3 eq_refl H4).
Defined.

Lemma list_filter_is_not_normalised_witness :
  ScheduleMessage "erin" "hi" (utc 1000) true parse_world []
  = (Ok erin_item, mkParseWorld 12, [erin_item])
  /\ handleScheduledList "GET" "" "erin@s.whatsapp.net" [erin_item]
     = JsonMessages [erin_item]
  /\ exists l, handleScheduledList "GET" "" "erin" [erin_item]
               = JsonMessages l /\ ~ In erin_item l.
Proof.
  split; [exact erin_scheduled|]. split; [reflexivity|].
  destruct (list_filter_is_not_normalised _ _ _ _ _ _ _ _ _ erin_scheduled)
    as (_ & _ & Hraw).
  apply Hraw; [discriminate|]. simpl. intros Hin.
  repeat (destruct Hin as [Hin | Hin]; [discriminate|]). exact Hin.
Defined.
